(** * Digital nets in base 2: the net representation of NetBuilder

    A shallow embedding of [NetBuilder::AbstractDigitalNet] and
    [NetBuilder::DigitalNet<NC>] (netbuilder/DigitalNet.h), with the
    shared-pointer heap written out, and the properties of construction,
    extension, point count, matrix lookup and textual output. *)

From Stdlib Require Import NArith String Ascii DecimalString Lia.
From stdpp Require Import base option list gmap strings.

Module NetBuilder.

(** ** Types of the surrounding headers *)

(** [Dimension] (netbuilder/Types.h) is an unsigned index type of
    [Dimension_bits] bits.  Its values are kept as natural numbers, and the
    one sum the net computes on a value the caller chose, [m_dimension + 1]
    in [appendNewCoordinate], is written with its wrap-around
    ([Dimension_succ] below).  The counter [dimension_j] of the constructor
    counts the elements of a vector it walks through and stays below their
    number. *)
Abbreviation Dimension := nat.

(** The limits of the index types: the width of [Dimension], and
    [max_size()] of the vectors of shared pointers, which is below the
    range of [Dimension] as [Dimension] counts the elements of vectors. *)
Class SizeLimits := {
  Dimension_bits : N;
  vector_max_size : N;
  vector_max_size_lt : (vector_max_size < 2 ^ Dimension_bits)%N
}.

(** [d + 1] in the unsigned arithmetic of [Dimension]. *)
Definition Dimension_succ `{!SizeLimits} (d : Dimension) : Dimension :=
  N.to_nat ((N.of_nat d + 1) mod 2 ^ Dimension_bits).

(** A number of elements that a vector can hold. *)
Definition fits_vector `{!SizeLimits} (n : nat) : Prop :=
  (N.of_nat n <= vector_max_size)%N.

(** The two output styles [format] tests for; every other enumerator of
    [OutputStyle] takes neither branch. *)
Inductive OutputStyle := TERMINAL | NET | OTHER_STYLE.

(** Addresses of heap objects owned through [std::shared_ptr] and
    [std::unique_ptr]. *)
Abbreviation loc := positive.

(** The width in bits of [uInteger] (latbuilder/Types.h). *)
Class UIntegerWidth := uInteger_bits : N.

(** The generating matrix class (netbuilder/GeneratingMatrix.h) is used
    through one member only. *)
Class GeneratingMatrixOps (GeneratingMatrix : Type) := {
  formatToColumnsReverse : GeneratingMatrix -> string
}.

(** [NetConstructionTraits<NC>] (netbuilder/NetConstructionTraits.h), taken
    as a parameter: the members [DigitalNet<NC>] uses.  The traits layer
    rejects a generating value that does not fit the size parameter with a
    construction error; [createGeneratingMatrix] answers [None] then. *)
Class NetConstructionTraits (GeneratingMatrix : Type) := {
  GenValue : Type;
  SizeParameter : Type;
  SizeParameter_default : SizeParameter;
  nRows : SizeParameter -> N;
  nCols : SizeParameter -> N;
  createGeneratingMatrix :
    GenValue -> SizeParameter -> Dimension -> option GeneratingMatrix;
  isSequenceViewable_flag : bool;
  traits_format :
    list GeneratingMatrix -> list GenValue -> SizeParameter ->
    OutputStyle -> N -> string
}.

(** ** Results of a call *)

(** The construction error of the traits layer, and [std::length_error]
    of a vector asked for more than [max_size()] elements. *)
Inductive exception := construction_error | length_error.

(** A call returns, leaves by an exception, or has no defined behaviour
    (an index past the end of a vector, a division by zero). *)
Inductive outcome (A : Type) : Type :=
| Returns (a : A)
| Throws (e : exception)
| Undefined.
Arguments Returns {A} a.
Arguments Throws {A} e.
Arguments Undefined {A}.

Definition obind {A B} (x : outcome A) (f : A -> outcome B) : outcome B :=
  match x with
  | Returns a => f a
  | Throws e => Throws e
  | Undefined => Undefined
  end.

(** ** Text primitives *)

Definition newline : string := String (ascii_of_nat 10) EmptyString.

(** [std::to_string] and [operator<<] on an unsigned integer. *)
Definition to_string (n : N) : string := NilZero.string_of_uint (N.to_uint n).

(** [std::string::pop_back]: undefined on the empty string. *)
Fixpoint pop_back (s : string) : outcome string :=
  match s with
  | EmptyString => Undefined
  | String c EmptyString => Returns EmptyString
  | String c s' => obind (pop_back s') (fun r => Returns (String c r))
  end.

Section Net.

Context {GeneratingMatrix : Type}.
Context `{!GeneratingMatrixOps GeneratingMatrix}.
Context `{!NetConstructionTraits GeneratingMatrix}.
Context `{!UIntegerWidth}.
Context `{!SizeLimits}.

(** ** The objects *)

(** The members of [AbstractDigitalNet] followed by those of
    [DigitalNet<NC>]; the two vectors hold shared pointers. *)
Record DigitalNet := mkDigitalNet {
  m_dimension : Dimension;
  m_nRows : N;
  m_nCols : N;
  m_generatingMatrices : list loc;
  m_sizeParameter : SizeParameter;
  m_genValues : list loc
}.

(** The free store: generating matrices, generating values and nets.
    Objects are never released here (no destructor runs in the modelled
    operations), so an address stays valid once allocated. *)
Record heap := mkHeap {
  matrix_objs : gmap loc GeneratingMatrix;
  genvalue_objs : gmap loc GenValue;
  net_objs : gmap loc DigitalNet
}.

Definition empty_heap : heap := mkHeap ∅ ∅ ∅.

(** Computations that allocate: a heap goes in, and a result comes out with
    the new heap.  An exception unwinds without a heap: what the
    interrupted call had allocated is released with its owners. *)
Definition M (A : Type) : Type := heap -> outcome (A * heap).

Definition ret {A} (a : A) : M A := fun h => Returns (a, h).

Definition bind {A B} (x : M A) (f : A -> M B) : M B :=
  fun h =>
    match x h with
    | Returns (a, h') => f a h'
    | Throws e => Throws e
    | Undefined => Undefined
    end.

Notation "x <- c1 ;; c2" := (bind c1 (fun x => c2))
  (at level 100, c1 at next level, right associativity).

Definition new_matrix (m : GeneratingMatrix) : M loc :=
  fun h =>
    let p := fresh (dom (matrix_objs h)) in
    Returns (p, mkHeap (<[p := m]> (matrix_objs h)) (genvalue_objs h) (net_objs h)).

Definition new_genvalue (v : GenValue) : M loc :=
  fun h =>
    let p := fresh (dom (genvalue_objs h)) in
    Returns (p, mkHeap (matrix_objs h) (<[p := v]> (genvalue_objs h)) (net_objs h)).

Definition new_net (n : DigitalNet) : M loc :=
  fun h =>
    let p := fresh (dom (net_objs h)) in
    Returns (p, mkHeap (matrix_objs h) (genvalue_objs h) (<[p := n]> (net_objs h))).

(** The call [ConstructionMethod::createGeneratingMatrix(...)]. *)
Definition call_createGeneratingMatrix
    (genValue : GenValue) (sizeParameter : SizeParameter) (coord : Dimension)
    : M GeneratingMatrix :=
  fun h =>
    match createGeneratingMatrix genValue sizeParameter coord with
    | Some m => Returns (m, h)
    | None => Throws construction_error
    end.

(** [p->method(...)] on a net held by pointer. *)
Definition invoke {A} (p : loc) (method : DigitalNet -> M A) : M A :=
  fun h =>
    match net_objs h !! p with
    | Some this => method this h
    | None => Undefined
    end.

(** ** AbstractDigitalNet *)

Definition numColumns (this : DigitalNet) : N := m_nCols this.
Definition numRows (this : DigitalNet) : N := m_nRows this.
Definition dimension (this : DigitalNet) : Dimension := m_dimension this.

(** Modelled from the spec: [LatBuilder::intPow] (latbuilder/Util.h) and the
    type [uInteger] are missing.  The spec gives the point count as
    [2^numColumns()] computed in the host's native integer width with no
    defined overflow behaviour of its own; unsigned arithmetic of that width
    is arithmetic modulo [2^uInteger_bits]. *)
Definition intPow (base exponent : N) : N :=
  (base ^ exponent) mod 2 ^ uInteger_bits.

Definition numPoints (this : DigitalNet) : outcome N :=
  Returns (intPow 2 (m_nCols this)).

(** [generatingMatrix] returns a reference: the address the shared pointer
    at index [coord] holds.  [operator[]] does not check its index. *)
Definition generatingMatrix_ref (this : DigitalNet) (coord : Dimension)
    : outcome loc :=
  match m_generatingMatrices this !! coord with
  | Some p => Returns p
  | None => Undefined
  end.

Definition generatingMatrix (h : heap) (this : DigitalNet) (coord : Dimension)
    : outcome GeneratingMatrix :=
  obind (generatingMatrix_ref this coord) (fun p =>
    match matrix_objs h !! p with
    | Some m => Returns m
    | None => Undefined
    end).

(** ** DigitalNet<NC>: construction *)

(** The body of the loop of the public constructor, from coordinate
    [dimension_j] on.  [dimension_j++] runs once per element of the vector
    [genValues] and so stays below the range of [Dimension]: it is written
    without wrap-around. *)
Fixpoint DigitalNet_fill (genValues : list GenValue) (dimension_j : Dimension)
    (this : DigitalNet) : M DigitalNet :=
  match genValues with
  | [] => ret this
  | genValue :: rest =>
      mat <- call_createGeneratingMatrix genValue (m_sizeParameter this) dimension_j ;;
      pm <- new_matrix mat ;;
      pv <- new_genvalue genValue ;;
      DigitalNet_fill rest (S dimension_j)
        (mkDigitalNet (m_dimension this) (m_nRows this) (m_nCols this)
           (m_generatingMatrices this ++ [pm])
           (m_sizeParameter this)
           (m_genValues this ++ [pv]))
  end.

(** Dummy constructor for placeholder nets. *)
Definition DigitalNet_placeholder (dimension : Dimension)
    (sizeParameter : SizeParameter) : DigitalNet :=
  mkDigitalNet dimension (nRows sizeParameter) (nCols sizeParameter)
    [] sizeParameter [].

Definition DigitalNet_default : DigitalNet :=
  DigitalNet_placeholder 0 SizeParameter_default.

(** [std::vector::reserve]: [std::length_error] when more than
    [max_size()] elements are asked for; otherwise no element is added and
    nothing that can be observed changes. *)
Definition reserve (n : nat) : M unit :=
  fun h =>
    if (vector_max_size <? N.of_nat n)%N then Throws length_error
    else Returns (tt, h).

(** Construction of a net from its size parameter and generating values:
    the members are set, [m_genValues.reserve(m_dimension)] is called, and
    the loop runs. *)
Definition DigitalNet_values (dimension : Dimension)
    (sizeParameter : SizeParameter) (genValues : list GenValue) : M DigitalNet :=
  let this := DigitalNet_placeholder dimension sizeParameter in
  _ <- reserve (m_dimension this) ;;
  DigitalNet_fill genValues 0 this.

(** Constructor used internally to avoid recomputing known matrices. *)
Definition DigitalNet_shared (dimension : Dimension)
    (sizeParameter : SizeParameter) (genValues genMatrices : list loc)
    : DigitalNet :=
  mkDigitalNet dimension (nRows sizeParameter) (nCols sizeParameter)
    genMatrices sizeParameter genValues.

(** ** DigitalNet<NC>: extension *)

Definition appendNewCoordinate (this : DigitalNet) (newGenValue : GenValue)
    : M loc :=
  mat <- call_createGeneratingMatrix newGenValue (m_sizeParameter this) (m_dimension this) ;;
  newMat <- new_matrix mat ;;
  let genMats := m_generatingMatrices this ++ [newMat] in
  pv <- new_genvalue newGenValue ;;
  let genVals := m_genValues this ++ [pv] in
  new_net (DigitalNet_shared (Dimension_succ (m_dimension this))
             (m_sizeParameter this) genVals genMats).

(** ** DigitalNet<NC>: formatting *)

(** The addresses of a vector of shared pointers, read through. *)
Definition load_all {A} (objs : gmap loc A) (ps : list loc) : outcome (list A) :=
  match mapM (fun p => objs !! p) ps with
  | Some xs => Returns xs
  | None => Undefined
  end.

(** The branch of [format] for [OutputStyle::TERMINAL]: the text of the
    string stream.  The quotient [dimension() / interlacingFactor] is an
    unsigned division. *)
Definition format_TERMINAL (this : DigitalNet) (interlacingFactor : N)
    : outcome string :=
  obind (numPoints this) (fun points =>
  if (interlacingFactor =? 0)%N then Undefined else
  let stream :=
    to_string (numColumns this) +:+ "  // Number of columns" +:+ newline +:+
    to_string (numRows this) +:+ "  // Number of rows" +:+ newline +:+
    to_string points +:+ "  // Number of points" +:+ newline +:+
    to_string (N.of_nat (dimension this) / interlacingFactor) +:+
      "  // Dimension of points" +:+ newline in
  let stream :=
    if (1 <? interlacingFactor)%N then
      stream +:+
      to_string interlacingFactor +:+ "  // Interlacing factor" +:+ newline +:+
      to_string (N.of_nat (dimension this)) +:+
        "  // Number of components = interlacing factor x dimension" +:+ newline
    else stream in
  Returns stream).

(** The loop over the coordinates in the branch for [OutputStyle::NET]:
    [count] rounds are left and the next index is [coord]. *)
Fixpoint format_NET_matrices (h : heap) (this : DigitalNet)
    (count : nat) (coord : nat) (res : string) : outcome string :=
  match count with
  | O => Returns res
  | S count' =>
      obind (generatingMatrix h this coord) (fun m =>
        format_NET_matrices h this count' (S coord)
          ((res +:+ formatToColumnsReverse m) +:+ newline))
  end.

(** The branch of [format] for [OutputStyle::NET]. *)
Definition format_NET (h : heap) (this : DigitalNet) (interlacingFactor : N)
    : outcome string :=
  let dimension_as_str := to_string (N.of_nat (dimension this)) in
  let nb_col_as_str := to_string (numColumns this) in
  let res := "# Parameters for a digital net in base 2" +:+ newline in
  let res :=
    res +:+ (dimension_as_str +:+ "    # " +:+ dimension_as_str +:+
             " dimensions" +:+ newline) in
  let res :=
    if (1 <? interlacingFactor)%N then
      (res +:+ (to_string interlacingFactor +:+ "  // Interlacing factor" +:+ newline))
      +:+ (to_string (N.of_nat (dimension this)) +:+
           "  // Number of components = interlacing factor x dimension" +:+ newline)
    else res in
  let res :=
    res +:+ (nb_col_as_str +:+ "   # k = " +:+ nb_col_as_str +:+ ",  n = 2^" +:+
             nb_col_as_str +:+ " = ") in
  obind (numPoints this) (fun points =>
  let res := res +:+ (to_string points +:+ " points" +:+ newline) in
  let res := res +:+ ("31   # r = 31 binary output digits" +:+ newline) in
  let res :=
    if (interlacingFactor =? 1)%N then
      res +:+ ("# Columns of gen. matrices C_1,...,C_s, one matrix per line:" +:+ newline)
    else
      res +:+ ("# Columns of gen. matrices C_1,...,C_{ds}, one matrix per line:" +:+ newline) in
  obind (format_NET_matrices h this (length (m_genValues this)) 0 res) pop_back).

(** The text [format] has built when it reaches the call of the traits'
    formatter. *)
Definition format_generic (h : heap) (this : DigitalNet)
    (outputStyle : OutputStyle) (interlacingFactor : N) : outcome string :=
  match outputStyle with
  | TERMINAL => format_TERMINAL this interlacingFactor
  | NET => format_NET h this interlacingFactor
  | OTHER_STYLE => Returns EmptyString
  end.

Definition format (h : heap) (this : DigitalNet)
    (outputStyle : OutputStyle) (interlacingFactor : N) : outcome string :=
  obind (format_generic h this outputStyle interlacingFactor) (fun res =>
  obind (load_all (matrix_objs h) (m_generatingMatrices this)) (fun mats =>
  obind (load_all (genvalue_objs h) (m_genValues this)) (fun vals =>
  Returns (res +:+ traits_format mats vals (m_sizeParameter this)
                     outputStyle interlacingFactor)))).

Definition isSequenceViewable (this : DigitalNet) : bool := isSequenceViewable_flag.

Definition sizeParameter (this : DigitalNet) : SizeParameter := m_sizeParameter this.

(** ** Extension, one value after another *)

(** The growth protocol of a search: each value extends the net the
    previous extension returned. *)
Fixpoint append_all (p : loc) (genValues : list GenValue) : M loc :=
  match genValues with
  | [] => ret p
  | v :: rest =>
      p' <- invoke p (fun this => appendNewCoordinate this v) ;;
      append_all p' rest
  end.

Definition grow_from_placeholder (sizeParameter : SizeParameter)
    (genValues : list GenValue) : M loc :=
  p <- new_net (DigitalNet_placeholder 0 sizeParameter) ;;
  append_all p genValues.

(** ** Invariants *)

(** [h'] holds every object of [h], unchanged: allocation only. *)
Definition heap_incl (h h' : heap) : Prop :=
  matrix_objs h ⊆ matrix_objs h' /\
  genvalue_objs h ⊆ genvalue_objs h' /\
  net_objs h ⊆ net_objs h'.

(** Coordinate [i] of the net holds the value [v] and the matrix the
    traits build from it at index [i]. *)
Definition coordinate_ok (h : heap) (n : DigitalNet) (i : nat) (v : GenValue)
    : Prop :=
  exists pm pv m,
    m_generatingMatrices n !! i = Some pm /\
    m_genValues n !! i = Some pv /\
    matrix_objs h !! pm = Some m /\
    genvalue_objs h !! pv = Some v /\
    createGeneratingMatrix v (m_sizeParameter n) i = Some m.

(** The net holds exactly the coordinates of the values [vs]. *)
Definition represents (h : heap) (n : DigitalNet) (vs : list GenValue) : Prop :=
  length (m_generatingMatrices n) = length vs /\
  length (m_genValues n) = length vs /\
  m_nRows n = nRows (m_sizeParameter n) /\
  m_nCols n = nCols (m_sizeParameter n) /\
  forall i v, vs !! i = Some v -> coordinate_ok h n i v.

(** The invariant of the data model. *)
Definition net_invariant (h : heap) (n : DigitalNet) : Prop :=
  exists vs, m_dimension n = length vs /\ represents h n vs.

(** The nets a program obtains, with the size parameter and the values
    they come from: built from the values [v0..v(d-1)] with dimension [d],
    or by extension of such a net by one more value (its vectors, one
    element longer, being vectors); they stay what they are while other
    nets are built and extended. *)
Inductive built : heap -> DigitalNet -> SizeParameter -> list GenValue -> Prop :=
| built_values h sp vs n h' :
    DigitalNet_values (length vs) sp vs h = Returns (n, h') ->
    built h' n sp vs
| built_append h this sp vs v p h' n' :
    built h this sp vs ->
    fits_vector (length (vs ++ [v])) ->
    appendNewCoordinate this v h = Returns (p, h') ->
    net_objs h' !! p = Some n' ->
    built h' n' sp (vs ++ [v])
| built_frame_values h n sp0 vs0 d sp vs n' h' :
    built h n sp0 vs0 ->
    DigitalNet_values d sp vs h = Returns (n', h') ->
    built h' n sp0 vs0
| built_frame_append h n sp0 vs0 this v p h' :
    built h n sp0 vs0 ->
    appendNewCoordinate this v h = Returns (p, h') ->
    built h' n sp0 vs0.

(** ** The textual grammar, as the spec words it *)

(** Lines, each closed by a line end. *)
Fixpoint unlines (ls : list string) : string :=
  match ls with
  | [] => EmptyString
  | l :: rest => l +:+ newline +:+ unlines rest
  end.

(** Style A: column count, row count, point count, logical dimension, and,
    when the interlacing factor exceeds 1, the interlacing factor and the
    raw dimension; each line an integer and a comment. *)
Definition terminal_lines (this : DigitalNet) (interlacingFactor : N)
    : list string :=
  [ to_string (numColumns this) +:+ "  // Number of columns";
    to_string (numRows this) +:+ "  // Number of rows";
    to_string (intPow 2 (numColumns this)) +:+ "  // Number of points";
    to_string (N.of_nat (dimension this) / interlacingFactor) +:+
      "  // Dimension of points" ] ++
  (if (1 <? interlacingFactor)%N then
     [ to_string interlacingFactor +:+ "  // Interlacing factor";
       to_string (N.of_nat (dimension this)) +:+
         "  // Number of components = interlacing factor x dimension" ]
   else []).


(** The number of lines a text holds: its line ends. *)
Fixpoint count_lines (s : string) : nat :=
  match s with
  | EmptyString => 0
  | String c s' =>
      (if Ascii.eqb c (ascii_of_nat 10) then 1 else 0) + count_lines s'
  end.

(** ** The rest of the interface *)

(** [size()]: the point count under its other name. *)
Definition size (this : DigitalNet) : outcome N :=
  Returns (intPow 2 (m_nCols this)).

(** ** Every net the constructors and the extension give *)

(** The two vectors are parallel, every pointer in them is live, and the
    row and column counts are those of the size parameter. *)
Definition well_stored (h : heap) (n : DigitalNet) : Prop :=
  length (m_genValues n) = length (m_generatingMatrices n) /\
  m_nRows n = nRows (m_sizeParameter n) /\
  m_nCols n = nCols (m_sizeParameter n) /\
  (forall i p, m_generatingMatrices n !! i = Some p ->
     is_Some (matrix_objs h !! p)) /\
  (forall i p, m_genValues n !! i = Some p ->
     is_Some (genvalue_objs h !! p)).

(** The nets of the public interface, whatever the arguments: the
    constructor from values with any dimension, the placeholder constructor
    with any dimension, and the extension of such nets; later allocations
    leave them in place. *)
Inductive obtained : heap -> DigitalNet -> Prop :=
| obtained_values h d sp vs n h' :
    DigitalNet_values d sp vs h = Returns (n, h') ->
    obtained h' n
| obtained_placeholder h d sp :
    obtained h (DigitalNet_placeholder d sp)
| obtained_append h this v p h' n' :
    obtained h this ->
    appendNewCoordinate this v h = Returns (p, h') ->
    net_objs h' !! p = Some n' ->
    obtained h' n'
| obtained_later h h' n :
    obtained h n ->
    heap_incl h h' ->
    obtained h' n.

End Net.

(** ** A construction method to run the definitions on

    Matrices are lists of columns, each column an integer; the size
    parameter is the number of columns (and rows); a generating value [v]
    is accepted when it fits in that many bits, and column [c] of the
    matrix of coordinate [j] is [v xor (j + c)]. *)
Module Toy.

Definition Matrix := list N.

Definition columns (v k : N) (j : Dimension) : Matrix :=
  map (fun c => N.lxor v (N.of_nat (j + c))) (seq 0 (N.to_nat k)).

#[export] Instance matrix_ops : GeneratingMatrixOps Matrix :=
  {| formatToColumnsReverse m := String.concat " " (map to_string m) |}.

#[export] Instance traits : NetConstructionTraits Matrix :=
  {| GenValue := N;
     SizeParameter := N;
     SizeParameter_default := 0%N;
     nRows k := k;
     nCols k := k;
     createGeneratingMatrix v k j :=
       if (v <? 2 ^ k)%N then Some (columns v k j) else None;
     isSequenceViewable_flag := false;
     traits_format _ _ _ _ _ := EmptyString |}.

#[export] Instance width64 : UIntegerWidth := 64%N.

(** A 64-bit [Dimension], and vectors of at most [2^59 - 1] pointers. *)
#[export] Instance limits : SizeLimits :=
  {| Dimension_bits := 64%N;
     vector_max_size := 576460752303423487%N;
     vector_max_size_lt := eq_refl |}.

(** A net of dimension 2 with 3 rows and 3 columns, built from the values
    5 and 6 in the empty heap, and the heap it leaves. *)
Definition example_run : outcome (DigitalNet * heap) :=
  DigitalNet_values 2 3%N [5%N; 6%N] empty_heap.

Definition example_net : DigitalNet :=
  match example_run with
  | Returns (n, _) => n
  | _ => DigitalNet_placeholder 0 0%N
  end.

Definition example_heap : heap :=
  match example_run with
  | Returns (_, h) => h
  | _ => empty_heap
  end.

(** The same net held by pointer, and its extension by the value 7. *)
Definition stored_run : outcome (loc * heap) := new_net example_net example_heap.

Definition stored_ptr : loc :=
  match stored_run with Returns (p, _) => p | _ => 1%positive end.

Definition stored_heap : heap :=
  match stored_run with Returns (_, h) => h | _ => example_heap end.

Definition child_run : outcome (loc * heap) :=
  invoke stored_ptr (fun this => appendNewCoordinate this 7%N) stored_heap.

Definition child_ptr : loc :=
  match child_run with Returns (p, _) => p | _ => 1%positive end.

Definition child_heap : heap :=
  match child_run with Returns (_, h) => h | _ => stored_heap end.


(** A net of 64 columns, the width of [uInteger] here. *)
Definition wide_net : DigitalNet := DigitalNet_placeholder 0 64%N.

(** A net whose dimension argument, 5, is not the number of its values. *)
Definition mismatched_run : outcome (DigitalNet * heap) :=
  DigitalNet_values 5 3%N [5%N; 6%N] empty_heap.

Definition mismatched_net : DigitalNet :=
  match mismatched_run with
  | Returns (n, _) => n
  | _ => DigitalNet_placeholder 0 0%N
  end.

Definition mismatched_heap : heap :=
  match mismatched_run with
  | Returns (_, h) => h
  | _ => empty_heap
  end.

(** A placeholder of dimension 3 held by pointer, extended by 5 and 6. *)
Definition seeded_run : outcome (loc * heap) :=
  new_net (DigitalNet_placeholder 3 3%N) empty_heap.

Definition seeded_ptr : loc :=
  match seeded_run with Returns (p, _) => p | _ => 1%positive end.

Definition seeded_heap : heap :=
  match seeded_run with Returns (_, h) => h | _ => empty_heap end.

Definition grown_run : outcome (loc * heap) :=
  append_all seeded_ptr [5%N; 6%N] seeded_heap.

Definition grown_ptr : loc :=
  match grown_run with Returns (p, _) => p | _ => 1%positive end.

Definition grown_heap : heap :=
  match grown_run with Returns (_, h) => h | _ => seeded_heap end.

(** The example net extended by the value 7, as a receiver passed by
    value. *)
Definition extended_run : outcome (loc * heap) :=
  appendNewCoordinate example_net 7%N example_heap.

Definition extended_ptr : loc :=
  match extended_run with Returns (p, _) => p | _ => 1%positive end.

Definition extended_heap : heap :=
  match extended_run with Returns (_, h) => h | _ => example_heap end.

Definition extended_net : DigitalNet :=
  match net_objs extended_heap !! extended_ptr with
  | Some n => n
  | None => DigitalNet_placeholder 0 0%N
  end.

End Toy.

(** * Properties *)

Section Properties.

Context {GeneratingMatrix : Type}.
Context `{!GeneratingMatrixOps GeneratingMatrix}.
Context `{!NetConstructionTraits GeneratingMatrix}.
Context `{!UIntegerWidth}.
Context `{!SizeLimits}.

Implicit Types (h : heap) (n this : DigitalNet) (v : GenValue)
  (vs : list GenValue) (p : loc).

(** ** The arithmetic of [Dimension] *)

Lemma Dimension_succ_small (d : Dimension) :
  (N.of_nat d + 1 < 2 ^ Dimension_bits)%N -> Dimension_succ d = d + 1.
Proof.
  intros Hlt. unfold Dimension_succ. rewrite N.mod_small by done. lia.
Qed.


Lemma fits_vector_no_wrap (n : nat) :
  fits_vector n -> (N.of_nat n < 2 ^ Dimension_bits)%N.
Proof.
  unfold fits_vector. pose proof vector_max_size_lt. lia.
Qed.

Lemma fits_vector_le (n m : nat) : n <= m -> fits_vector m -> fits_vector n.
Proof. unfold fits_vector. lia. Qed.

Lemma Dimension_succ_fits (n : nat) :
  fits_vector (S n) -> Dimension_succ n = S n.
Proof.
  intros Hf. apply fits_vector_no_wrap in Hf.
  rewrite Dimension_succ_small by lia. lia.
Qed.

Lemma reserve_Returns (k : nat) h u h' :
  reserve k h = Returns (u, h') -> fits_vector k /\ h' = h.
Proof.
  unfold reserve, fits_vector.
  destruct (N.ltb_spec vector_max_size (N.of_nat k)); [discriminate|].
  by intros [= _ <-].
Qed.

Lemma reserve_fits (k : nat) h :
  fits_vector k -> reserve k h = Returns (tt, h).
Proof.
  unfold reserve, fits_vector. intros Hf.
  destruct (N.ltb_spec vector_max_size (N.of_nat k)); [lia|done].
Qed.

Lemma reserve_too_long (k : nat) h :
  ~ fits_vector k -> reserve k h = Throws length_error.
Proof.
  unfold reserve, fits_vector. intros Hf.
  destruct (N.ltb_spec vector_max_size (N.of_nat k)); [done|lia].
Qed.

(** ** The heap only grows *)

Lemma heap_incl_refl h : heap_incl h h.
Proof. by repeat split. Qed.

Lemma heap_incl_trans h1 h2 h3 :
  heap_incl h1 h2 -> heap_incl h2 h3 -> heap_incl h1 h3.
Proof.
  intros (A1 & A2 & A3) (B1 & B2 & B3).
  repeat split; etrans; eauto.
Qed.

Lemma fresh_lookup_None {A} (m : gmap loc A) : m !! fresh (dom m) = None.
Proof. apply not_elem_of_dom, is_fresh. Qed.

Lemma new_matrix_incl m h p h' :
  new_matrix m h = Returns (p, h') ->
  matrix_objs h !! p = None /\ matrix_objs h' !! p = Some m /\ heap_incl h h'.
Proof.
  unfold new_matrix. intros [= <- <-]. simpl.
  pose proof (fresh_lookup_None (matrix_objs h)) as Hf.
  split; [done|]. split; [by rewrite lookup_insert_eq|].
  split; [by apply insert_subseteq | done].
Qed.

Lemma new_genvalue_incl v h p h' :
  new_genvalue v h = Returns (p, h') ->
  genvalue_objs h !! p = None /\ genvalue_objs h' !! p = Some v /\ heap_incl h h'.
Proof.
  unfold new_genvalue. intros [= <- <-]. simpl.
  pose proof (fresh_lookup_None (genvalue_objs h)) as Hf.
  split; [done|]. split; [by rewrite lookup_insert_eq|].
  split; [done|]. split; [by apply insert_subseteq | done].
Qed.

Lemma new_net_incl n h p h' :
  new_net n h = Returns (p, h') ->
  net_objs h !! p = None /\ net_objs h' !! p = Some n /\ heap_incl h h'.
Proof.
  unfold new_net. intros [= <- <-]. simpl.
  pose proof (fresh_lookup_None (net_objs h)) as Hf.
  split; [done|]. split; [by rewrite lookup_insert_eq|].
  split; [done|]. split; [done | by apply insert_subseteq].
Qed.

(** ** Coordinates survive allocation *)

Lemma coordinate_ok_incl h h' n i v :
  heap_incl h h' -> coordinate_ok h n i v -> coordinate_ok h' n i v.
Proof.
  intros (Hm & Hv & _) (pm & pv & m & H1 & H2 & H3 & H4 & H5).
  exists pm, pv, m. repeat split; try done.
  - eapply lookup_weaken; eauto.
  - eapply lookup_weaken; eauto.
Qed.

Lemma represents_incl h h' n vs :
  heap_incl h h' -> represents h n vs -> represents h' n vs.
Proof.
  intros Hi (L1 & L2 & R & C & Hc). repeat split; try done.
  intros i v Hv. eapply coordinate_ok_incl; eauto.
Qed.

(** A net with one more pointer in each vector: the old coordinates are
    found where they were. *)
Lemma coordinate_ok_push h d r c d' r' c' mats sp vals pm pv i v :
  coordinate_ok h (mkDigitalNet d r c mats sp vals) i v ->
  coordinate_ok h (mkDigitalNet d' r' c' (mats ++ [pm]) sp (vals ++ [pv])) i v.
Proof.
  intros (qm & qv & m & H1 & H2 & H3 & H4 & H5). simpl in *.
  exists qm, qv, m. simpl. repeat split; try done.
  - apply lookup_app_l_Some; done.
  - apply lookup_app_l_Some; done.
Qed.

(** The step shared by the constructor's loop and by the extension: a new
    matrix and a new value are allocated and pushed. *)
Lemma represents_push h this vs v m pm h1 pv h2 d' :
  represents h this vs ->
  createGeneratingMatrix v (m_sizeParameter this) (length vs) = Some m ->
  new_matrix m h = Returns (pm, h1) ->
  new_genvalue v h1 = Returns (pv, h2) ->
  represents h2
    (mkDigitalNet d' (m_nRows this) (m_nCols this)
       (m_generatingMatrices this ++ [pm]) (m_sizeParameter this)
       (m_genValues this ++ [pv]))
    (vs ++ [v]) /\ heap_incl h h2.
Proof.
  intros (L1 & L2 & R & C & Hc) Hm Hpm Hpv.
  apply new_matrix_incl in Hpm as (_ & Hpm & I1).
  apply new_genvalue_incl in Hpv as (_ & Hpv & I2).
  assert (heap_incl h h2) as I by (eapply heap_incl_trans; eauto).
  split; [|done].
  repeat split; simpl; try done.
  - rewrite !length_app. simpl. lia.
  - rewrite !length_app. simpl. lia.
  - intros i w Hw.
    destruct (decide (i < length vs)) as [Hlt|Hge].
    + rewrite lookup_app_l in Hw by done.
      destruct this as [d r c mats sp vals]; simpl in *.
      apply (coordinate_ok_push _ d r c).
      eapply coordinate_ok_incl; [exact I|]. by apply Hc.
    + assert (i = length vs) as ->.
      { apply lookup_lt_Some in Hw. rewrite length_app in Hw. simpl in Hw. lia. }
      rewrite lookup_app_r in Hw by lia.
      rewrite Nat.sub_diag in Hw. simpl in Hw. injection Hw as <-.
      exists pm, pv, m. simpl. repeat split.
      * rewrite lookup_app_r by lia. by rewrite L1, Nat.sub_diag.
      * rewrite lookup_app_r by lia. by rewrite L2, Nat.sub_diag.
      * destruct I2 as (I2 & _ & _). eapply lookup_weaken; eauto.
      * done.
      * done.
Qed.

(** ** Running the allocating computations *)

Lemma bind_Returns {A B} (x : M A) (f : A -> M B) h b h' :
  bind x f h = Returns (b, h') ->
  exists a h1, x h = Returns (a, h1) /\ f a h1 = Returns (b, h').
Proof.
  unfold bind. destruct (x h) as [[a h1]| |]; try discriminate.
  intros Hf. by exists a, h1.
Qed.

Lemma call_create_Returns v (sp : SizeParameter) j h m h' :
  call_createGeneratingMatrix v sp j h = Returns (m, h') ->
  createGeneratingMatrix v sp j = Some m /\ h' = h.
Proof.
  unfold call_createGeneratingMatrix.
  destruct (createGeneratingMatrix v sp j); [|discriminate].
  by intros [= <- <-].
Qed.

(** The constructor's loop, when it returns, has added the coordinates of
    the values it was given. *)
Lemma fill_represents vs : forall vs0 this h n h',
  represents h this vs0 ->
  DigitalNet_fill vs (length vs0) this h = Returns (n, h') ->
  represents h' n (vs0 ++ vs) /\
  m_dimension n = m_dimension this /\
  m_sizeParameter n = m_sizeParameter this /\
  heap_incl h h'.
Proof.
  induction vs as [|v vs IH]; intros vs0 this h n h' Hrep Hrun.
  - simpl in Hrun. injection Hrun as <- <-.
    rewrite app_nil_r. auto using heap_incl_refl.
  - simpl in Hrun.
    apply bind_Returns in Hrun as (m & h0 & Hm & Hrun).
    apply call_create_Returns in Hm as [Hm ->].
    apply bind_Returns in Hrun as (pm & h1 & Hpm & Hrun).
    apply bind_Returns in Hrun as (pv & h2 & Hpv & Hrun).
    destruct (represents_push h this vs0 v m pm h1 pv h2 (m_dimension this)
                Hrep Hm Hpm Hpv) as [Hrep' Hincl].
    replace (S (length vs0)) with (length (vs0 ++ [v])) in Hrun
      by (rewrite length_app; simpl; lia).
    apply IH in Hrun as (Hr & Hd & Hs & Hi); [|exact Hrep'].
    simpl in Hd, Hs. rewrite <- app_assoc in Hr. simpl in Hr.
    split; [exact Hr|]. split; [done|]. split; [done|].
    eapply heap_incl_trans; eauto.
Qed.

(** The loop returns when the traits accept every value at its index. *)
Lemma fill_returns vs : forall j0 this h,
  (forall j v, vs !! j = Some v ->
     is_Some (createGeneratingMatrix v (m_sizeParameter this) (j0 + j))) ->
  exists n h', DigitalNet_fill vs j0 this h = Returns (n, h').
Proof.
  induction vs as [|v vs IH]; intros j0 this h Hok.
  - simpl. by eexists _, _.
  - destruct (Hok 0 v eq_refl) as [m Hm]. rewrite Nat.add_0_r in Hm.
    simpl. unfold bind at 1, call_createGeneratingMatrix. rewrite Hm.
    unfold bind at 1, new_matrix. unfold bind at 1, new_genvalue.
    apply IH. simpl. intros j w Hw.
    specialize (Hok (S j) w Hw).
    by replace (j0 + S j) with (S j0 + j) in Hok by lia.
Qed.

(** What one extension does, step by step. *)
Lemma append_inv h this v p h' :
  appendNewCoordinate this v h = Returns (p, h') ->
  exists m pm h1 pv h2,
    createGeneratingMatrix v (m_sizeParameter this) (m_dimension this) = Some m /\
    new_matrix m h = Returns (pm, h1) /\
    new_genvalue v h1 = Returns (pv, h2) /\
    new_net (DigitalNet_shared (Dimension_succ (m_dimension this))
               (m_sizeParameter this)
               (m_genValues this ++ [pv]) (m_generatingMatrices this ++ [pm])) h2
      = Returns (p, h').
Proof.
  unfold appendNewCoordinate. intros Hrun.
  apply bind_Returns in Hrun as (m & h0 & Hm & Hrun).
  apply call_create_Returns in Hm as [Hm ->].
  apply bind_Returns in Hrun as (pm & h1 & Hpm & Hrun).
  apply bind_Returns in Hrun as (pv & h2 & Hpv & Hrun).
  by exists m, pm, h1, pv, h2.
Qed.

Lemma append_returns h this v m :
  createGeneratingMatrix v (m_sizeParameter this) (m_dimension this) = Some m ->
  exists p h', appendNewCoordinate this v h = Returns (p, h').
Proof.
  intros Hm. unfold appendNewCoordinate, bind, call_createGeneratingMatrix.
  rewrite Hm. simpl. by eexists _, _.
Qed.

Lemma append_incl h this v p h' :
  appendNewCoordinate this v h = Returns (p, h') -> heap_incl h h'.
Proof.
  intros Hrun.
  apply append_inv in Hrun as (m & pm & h1 & pv & h2 & _ & Hpm & Hpv & Hp).
  apply new_matrix_incl in Hpm as (_ & _ & I1).
  apply new_genvalue_incl in Hpv as (_ & _ & I2).
  apply new_net_incl in Hp as (_ & _ & I3).
  eauto using heap_incl_trans.
Qed.

(** Extension of a net that holds the values [vs] gives one that holds
    [vs ++ [v]]. *)
Lemma append_represents h this vs v p h' :
  represents h this vs ->
  m_dimension this = length vs ->
  fits_vector (length (vs ++ [v])) ->
  appendNewCoordinate this v h = Returns (p, h') ->
  exists n',
    net_objs h' !! p = Some n' /\
    net_objs h !! p = None /\
    represents h' n' (vs ++ [v]) /\
    m_dimension n' = length (vs ++ [v]) /\
    m_sizeParameter n' = m_sizeParameter this /\
    heap_incl h h'.
Proof.
  intros Hrep Hd Hfit Hrun.
  pose proof (append_incl _ _ _ _ _ Hrun) as Hincl.
  apply append_inv in Hrun as (m & pm & h1 & pv & h2 & Hm & Hpm & Hpv & Hp).
  rewrite length_app, Nat.add_1_r in Hfit.
  rewrite Hd, (Dimension_succ_fits _ Hfit) in Hp. rewrite Hd in Hm.
  destruct (represents_push h this vs v m pm h1 pv h2 (S (length vs))
              Hrep Hm Hpm Hpv) as [Hrep' _].
  destruct Hrep as (_ & _ & R & C & _).
  pose proof (new_matrix_incl _ _ _ _ Hpm) as (_ & _ & (_ & _ & N1)).
  pose proof (new_genvalue_incl _ _ _ _ Hpv) as (_ & _ & (_ & _ & N2)).
  apply new_net_incl in Hp as (Hnone & Hp & I3).
  eexists. split; [exact Hp|]. split.
  { destruct (net_objs h !! p) eqn:E; [|done].
    eapply lookup_weaken in E; [|etrans; eauto]. congruence. }
  split.
  { eapply represents_incl; [exact I3|].
    unfold DigitalNet_shared. rewrite <- R, <- C. exact Hrep'. }
  split; [simpl; rewrite length_app; simpl; lia|].
  split; [done|done].
Qed.

Lemma placeholder_represents h d (sp : SizeParameter) :
  represents h (DigitalNet_placeholder d sp) [].
Proof. repeat split. intros i v Hv. by rewrite lookup_nil in Hv. Qed.

Lemma values_represents h d (sp : SizeParameter) vs n h' :
  DigitalNet_values d sp vs h = Returns (n, h') ->
  represents h' n vs /\ m_dimension n = d /\ m_sizeParameter n = sp /\
  heap_incl h h'.
Proof.
  unfold DigitalNet_values. cbv zeta. intros Hrun.
  apply bind_Returns in Hrun as (u & h0 & Hres & Hrun).
  apply reserve_Returns in Hres as [_ ->].
  apply (fill_represents vs [] _ h n h' (placeholder_represents h d sp)) in Hrun.
  exact Hrun.
Qed.

Lemma net_invariant_incl h h' n :
  heap_incl h h' -> net_invariant h n -> net_invariant h' n.
Proof.
  intros Hi (vs & Hd & Hrep). exists vs. split; [done|].
  eapply represents_incl; eauto.
Qed.

(** Every net a program obtains holds the values it comes from, under the
    size parameter it comes from: by induction on how it was obtained. *)
Lemma built_represents h n (sp : SizeParameter) vs :
  built h n sp vs ->
  represents h n vs /\ m_dimension n = length vs /\ m_sizeParameter n = sp.
Proof.
  induction 1 as [h sp vs n h' Hrun
                 |h this sp vs v p h' n' Hb IH Hfit Hrun Hp
                 |h n sp0 vs0 d sp vs n' h' Hb IH Hrun
                 |h n sp0 vs0 this v p h' Hb IH Hrun].
  - apply values_represents in Hrun as (Hrep & Hd & Hs & _). by split.
  - destruct IH as (Hrep & Hd & Hs).
    destruct (append_represents _ _ _ _ _ _ Hrep Hd Hfit Hrun)
      as (n2 & Hp2 & _ & Hrep2 & Hd2 & Hs2 & _).
    assert (n2 = n') as -> by congruence.
    split; [done|]. split; [done|]. congruence.
  - destruct IH as (Hrep & Hd & Hs).
    apply values_represents in Hrun as (_ & _ & _ & Hi).
    split; [|done]. eapply represents_incl; eauto.
  - destruct IH as (Hrep & Hd & Hs).
    apply append_incl in Hrun.
    split; [|done]. eapply represents_incl; eauto.
Qed.

Lemma built_invariant h n (sp : SizeParameter) vs :
  built h n sp vs -> net_invariant h n.
Proof.
  intros Hb. apply built_represents in Hb as (Hrep & Hd & _).
  by exists vs.
Qed.

Lemma coordinate_ok_generatingMatrix h n i v :
  coordinate_ok h n i v ->
  exists pv m,
    m_genValues n !! i = Some pv /\
    genvalue_objs h !! pv = Some v /\
    generatingMatrix h n i = Returns m /\
    createGeneratingMatrix v (sizeParameter n) i = Some m.
Proof.
  intros (pm & pv & m & H1 & H2 & H3 & H4 & H5).
  exists pv, m. split; [done|]. split; [done|]. split; [|done].
  unfold generatingMatrix, generatingMatrix_ref. rewrite H1. simpl. by rewrite H3.
Qed.

(** ** The matrices are built from the values *)

(** C1: the net built from a size parameter and the values
    [v0..v(d-1)], and every net obtained from it by extension with further
    values, has as many coordinates as values, in its dimension and in
    both vectors, and the size parameter it was given; at each coordinate
    [i] it stores the [i]-th of these values and the matrix the traits
    build from that value, the size parameter and [i]; this stays so while
    other nets are built and extended. *)
Theorem matrices_built_from_values h n (sp : SizeParameter) vs :
  built h n sp vs ->
  dimension n = length vs /\
  sizeParameter n = sp /\
  length (m_generatingMatrices n) = length vs /\
  length (m_genValues n) = length vs /\
  forall i v, vs !! i = Some v ->
    exists pv m,
      m_genValues n !! i = Some pv /\
      genvalue_objs h !! pv = Some v /\
      generatingMatrix h n i = Returns m /\
      createGeneratingMatrix v sp i = Some m.
Proof.
  intros Hb.
  apply built_represents in Hb as ((L1 & L2 & _ & _ & Hc) & Hd & Hs).
  unfold dimension, sizeParameter.
  split; [done|]. split; [done|]. split; [done|]. split; [done|].
  intros i v Hv.
  destruct (coordinate_ok_generatingMatrix _ _ _ _ (Hc i v Hv))
    as (pv & m & A & B & C & D).
  exists pv, m. unfold sizeParameter in D. rewrite Hs in D. by repeat split.
Qed.

(** ** Extension *)



Lemma invoke_lookup {A} p this (method : DigitalNet -> M A) h :
  net_objs h !! p = Some this -> invoke p method h = method this h.
Proof. unfold invoke. by intros ->. Qed.

(** One extension through a pointer: what is allocated, and where. *)
Lemma invoke_append_frame h p1 net1 v p2 h' :
  net_objs h !! p1 = Some net1 ->
  invoke p1 (fun this => appendNewCoordinate this v) h = Returns (p2, h') ->
  exists pm pv m,
    net_objs h' !! p2 =
      Some (DigitalNet_shared (Dimension_succ (m_dimension net1))
              (m_sizeParameter net1)
              (m_genValues net1 ++ [pv]) (m_generatingMatrices net1 ++ [pm])) /\
    net_objs h !! p2 = None /\
    matrix_objs h !! pm = None /\
    matrix_objs h' !! pm = Some m /\
    createGeneratingMatrix v (m_sizeParameter net1) (m_dimension net1) = Some m /\
    heap_incl h h'.
Proof.
  intros Hp1 Hrun. rewrite (invoke_lookup _ _ _ _ Hp1) in Hrun.
  pose proof (append_incl _ _ _ _ _ Hrun) as Hincl.
  apply append_inv in Hrun as (m & pm & h1 & pv & h2 & Hm & Hpm & Hpv & Hp).
  apply new_matrix_incl in Hpm as (Hfm & Hpm & (_ & _ & N1)).
  apply new_genvalue_incl in Hpv as (_ & _ & (I2 & _ & N2)).
  apply new_net_incl in Hp as (Hfn & Hp & (I3 & _ & _)).
  exists pm, pv, m. split; [exact Hp|]. split.
  { destruct (net_objs h !! p2) eqn:E; [|done].
    eapply lookup_weaken in E; [|etrans; eauto]. congruence. }
  split; [done|]. split.
  { eapply lookup_weaken; [|exact I3]. eapply lookup_weaken; eauto. }
  by split.
Qed.

Lemma generatingMatrix_incl h h' n j m :
  heap_incl h h' ->
  generatingMatrix h n j = Returns m -> generatingMatrix h' n j = Returns m.
Proof.
  intros (I & _ & _). unfold generatingMatrix.
  destruct (generatingMatrix_ref n j) as [q| |]; simpl; try discriminate.
  destruct (matrix_objs h !! q) as [m'|] eqn:E; [|discriminate].
  intros [= ->]. by rewrite (lookup_weaken _ _ _ _ E I).
Qed.

Lemma shared_prefix_ref net1 d (sp : SizeParameter) vals pm j :
  j < length (m_generatingMatrices net1) ->
  exists q,
    generatingMatrix_ref net1 j = Returns q /\
    generatingMatrix_ref
      (DigitalNet_shared d sp vals (m_generatingMatrices net1 ++ [pm])) j
      = Returns q.
Proof.
  intros Hj. destruct (lookup_lt_is_Some_2 _ _ Hj) as [q Hq].
  exists q. unfold generatingMatrix_ref. simpl.
  rewrite lookup_app_l by done. by rewrite Hq.
Qed.

(** C3: an extension through a pointer leaves the receiver as it was, and
    every object of the heap with it; the new net holds, at every
    coordinate below the receiver's dimension, the very address the
    receiver holds (for the matrices and for the values); a second
    extension of the same receiver leaves the first one as it was, shares
    the same addresses, and has a new matrix object of its own. *)
Theorem appendNewCoordinate_frame h p1 net1 v p2 h' :
  net_objs h !! p1 = Some net1 ->
  length (m_generatingMatrices net1) = dimension net1 ->
  invoke p1 (fun this => appendNewCoordinate this v) h = Returns (p2, h') ->
  exists net2,
    net_objs h' !! p2 = Some net2 /\ p2 <> p1 /\
    net_objs h' !! p1 = Some net1 /\
    heap_incl h h' /\
    (forall j m, generatingMatrix h net1 j = Returns m ->
                 generatingMatrix h' net1 j = Returns m) /\
    (forall j, j < dimension net1 ->
       exists q, generatingMatrix_ref net1 j = Returns q /\
                 generatingMatrix_ref net2 j = Returns q) /\
    (forall j q, m_genValues net1 !! j = Some q -> m_genValues net2 !! j = Some q) /\
    forall w p3 h'',
      invoke p1 (fun this => appendNewCoordinate this w) h' = Returns (p3, h'') ->
      exists net3,
        net_objs h'' !! p3 = Some net3 /\ p3 <> p2 /\ p3 <> p1 /\
        net_objs h'' !! p2 = Some net2 /\
        net_objs h'' !! p1 = Some net1 /\
        (forall j m, generatingMatrix h' net2 j = Returns m ->
                     generatingMatrix h'' net2 j = Returns m) /\
        (forall j, j < dimension net1 ->
           exists q, generatingMatrix_ref net1 j = Returns q /\
                     generatingMatrix_ref net2 j = Returns q /\
                     generatingMatrix_ref net3 j = Returns q) /\
        generatingMatrix_ref net3 (dimension net1)
          <> generatingMatrix_ref net2 (dimension net1).
Proof.
  unfold dimension. intros Hp1 Hlen Hrun.
  destruct (invoke_append_frame _ _ _ _ _ _ Hp1 Hrun)
    as (pm & pv & m & Hp2 & Hf2 & Hfm & Hpm & Hm & Hincl).
  pose proof Hincl as (_ & _ & In).
  assert (net_objs h' !! p1 = Some net1) as Hp1'
    by (eapply lookup_weaken; eauto).
  eexists. split; [exact Hp2|].
  split; [congruence|]. split; [done|]. split; [done|].
  split; [intros j m0; by apply generatingMatrix_incl|].
  split.
  { intros j Hj. apply shared_prefix_ref. lia. }
  split.
  { intros j q Hq. simpl. by apply lookup_app_l_Some. }
  intros w p3 h'' Hrun3.
  destruct (invoke_append_frame _ _ _ _ _ _ Hp1' Hrun3)
    as (pm3 & pv3 & m3 & Hp3 & Hf3 & Hfm3 & Hpm3 & Hm3 & Hincl3).
  pose proof Hincl3 as (_ & _ & In3).
  eexists. split; [exact Hp3|].
  split; [congruence|]. split; [congruence|].
  split; [eapply lookup_weaken; eauto|].
  split; [eapply lookup_weaken; eauto|].
  split; [intros j m0; by apply generatingMatrix_incl|].
  split.
  { intros j Hj.
    destruct (lookup_lt_is_Some_2 (m_generatingMatrices net1) j) as [q Hq];
      [lia|].
    exists q. unfold generatingMatrix_ref. simpl.
    rewrite !lookup_app_l by lia. by rewrite Hq. }
  unfold generatingMatrix_ref. simpl.
  rewrite !lookup_app_r by lia. rewrite Hlen, Nat.sub_diag. simpl.
  intros [= ->]. congruence.
Qed.

(** ** Placeholder and repeated extension *)

Lemma append_all_represents vs : forall vs0 p this h,
  net_objs h !! p = Some this ->
  represents h this vs0 ->
  m_dimension this = length vs0 ->
  fits_vector (length (vs0 ++ vs)) ->
  (forall j v, vs !! j = Some v ->
     is_Some (createGeneratingMatrix v (m_sizeParameter this) (length vs0 + j))) ->
  exists p' h' n',
    append_all p vs h = Returns (p', h') /\
    net_objs h' !! p' = Some n' /\
    represents h' n' (vs0 ++ vs) /\
    m_dimension n' = length (vs0 ++ vs) /\
    m_sizeParameter n' = m_sizeParameter this.
Proof.
  induction vs as [|v vs IH]; intros vs0 p this h Hp Hrep Hd Hfit Hok.
  - exists p, h, this. rewrite app_nil_r.
    split; [done|]. split; [done|]. split; [done|]. by split.
  - destruct (Hok 0 v eq_refl) as [m Hm].
    rewrite Nat.add_0_r, <- Hd in Hm.
    destruct (append_returns h this v m Hm) as (p1 & h1 & Hrun).
    assert (fits_vector (length (vs0 ++ [v]))) as Hfit1.
    { eapply fits_vector_le; [|exact Hfit]. rewrite !length_app. simpl. lia. }
    destruct (append_represents _ _ _ _ _ _ Hrep Hd Hfit1 Hrun)
      as (n1 & Hp1 & _ & Hrep1 & Hd1 & Hs1 & _).
    destruct (IH (vs0 ++ [v]) p1 n1 h1 Hp1 Hrep1 Hd1) as (p' & h' & n' & Hr).
    { by rewrite <- app_assoc. }
    { intros j w Hw. rewrite Hs1, length_app. simpl.
      replace (length vs0 + 1 + j) with (length vs0 + S j) by lia.
      by apply Hok. }
    exists p', h', n'. rewrite <- app_assoc in Hr. simpl in Hr.
    destruct Hr as (Hr & ? & ? & ? & Hs). split.
    { simpl. unfold bind. rewrite (invoke_lookup _ _ _ _ Hp), Hrun. exact Hr. }
    split; [done|]. split; [done|]. split; [done|]. congruence.
Qed.

(** The matrix read at a coordinate of a net that holds [vs]. *)
Lemma represents_generatingMatrix h n vs coord :
  represents h n vs ->
  generatingMatrix h n coord =
    match vs !! coord with
    | Some v =>
        match createGeneratingMatrix v (m_sizeParameter n) coord with
        | Some m => Returns m
        | None => Undefined
        end
    | None => Undefined
    end.
Proof.
  intros (L1 & _ & _ & _ & Hc).
  destruct (vs !! coord) as [v|] eqn:Hv.
  - destruct (Hc coord v Hv) as (pm & pv & m & H1 & _ & H3 & _ & H5).
    rewrite H5. unfold generatingMatrix, generatingMatrix_ref.
    rewrite H1. simpl. by rewrite H3.
  - apply lookup_ge_None in Hv.
    unfold generatingMatrix, generatingMatrix_ref.
    rewrite (lookup_ge_None_2 (m_generatingMatrices n) coord) by lia. done.
Qed.

(** C4: when the traits accept each value at its index, the placeholder of
    dimension 0 extended by the values one after another, and the net
    built from the values in one call, both exist and have the same
    dimension, the same row and column counts and the same matrix at every
    coordinate.  The values are as many as a vector holds. *)
Theorem placeholder_extension_roundtrip (sp : SizeParameter) vs h1 h2 :
  fits_vector (length vs) ->
  (forall j v, vs !! j = Some v -> is_Some (createGeneratingMatrix v sp j)) ->
  exists n1 h1' p2 h2' n2,
    DigitalNet_values (length vs) sp vs h1 = Returns (n1, h1') /\
    grow_from_placeholder sp vs h2 = Returns (p2, h2') /\
    net_objs h2' !! p2 = Some n2 /\
    dimension n2 = dimension n1 /\
    dimension n1 = length vs /\
    numRows n2 = numRows n1 /\
    numColumns n2 = numColumns n1 /\
    forall coord,
      generatingMatrix h2' n2 coord = generatingMatrix h1' n1 coord /\
      (coord < length vs -> exists m, generatingMatrix h1' n1 coord = Returns m).
Proof.
  intros Hfit Hok.
  destruct (fill_returns vs 0 (DigitalNet_placeholder (length vs) sp) h1)
    as (n1 & h1' & Hrun1); [exact Hok|].
  assert (DigitalNet_values (length vs) sp vs h1 = Returns (n1, h1')) as Hval.
  { unfold DigitalNet_values, bind. cbv zeta. simpl.
    by rewrite (reserve_fits _ h1 Hfit). }
  clear Hrun1. rename Hval into Hrun1.
  pose proof (values_represents _ _ _ _ _ _ Hrun1) as (Hrep1 & Hd1 & Hs1 & _).
  destruct (new_net (DigitalNet_placeholder 0 sp) h2) as [[p0 h0]| |] eqn:Hnew;
    try discriminate.
  apply new_net_incl in Hnew as Hp0. destruct Hp0 as (_ & Hp0 & _).
  destruct (append_all_represents vs [] p0 _ h0 Hp0
              (placeholder_represents h0 0 sp) eq_refl Hfit Hok)
    as (p2 & h2' & n2 & Hrun2 & Hp2 & Hrep2 & Hd2 & Hs2).
  simpl in Hrep2, Hd2, Hs2.
  exists n1, h1', p2, h2', n2.
  split; [exact Hrun1|]. split.
  { unfold grow_from_placeholder, bind. by rewrite Hnew. }
  split; [done|].
  unfold dimension, numRows, numColumns.
  split; [congruence|]. split; [done|].
  pose proof Hrep1 as (_ & _ & R1 & C1 & _).
  pose proof Hrep2 as (_ & _ & R2 & C2 & _).
  split; [congruence|]. split; [congruence|].
  intros coord.
  rewrite (represents_generatingMatrix h2' n2 vs coord) by done.
  rewrite (represents_generatingMatrix h1' n1 vs coord) by done.
  rewrite Hs1, Hs2. split; [done|].
  intros Hc. destruct (lookup_lt_is_Some_2 vs coord Hc) as [v Hv].
  rewrite Hv. destruct (Hok coord v Hv) as [m ->]. by exists m.
Qed.

(** ** Text *)

Lemma append_assoc (a b c : string) : (a +:+ b) +:+ c = a +:+ (b +:+ c).
Proof.
  induction a as [|x a IH]; [done|].
  change (String x ((a +:+ b) +:+ c) = String x (a +:+ (b +:+ c))).
  by rewrite IH.
Qed.

Lemma append_nil_r (a : string) : a +:+ EmptyString = a.
Proof.
  induction a as [|x a IH]; [done|].
  change (String x (a +:+ EmptyString) = String x a). by rewrite IH.
Qed.

Lemma unlines_app (xs ys : list string) :
  unlines (xs ++ ys) = unlines xs +:+ unlines ys.
Proof.
  induction xs as [|x xs IH]; [done|].
  simpl. by rewrite IH, !append_assoc.
Qed.



Lemma count_lines_app (a b : string) :
  count_lines (a +:+ b) = count_lines a + count_lines b.
Proof.
  induction a as [|x a IH]; [done|].
  change (count_lines (String x (a +:+ b)) =
          count_lines (String x a) + count_lines b).
  simpl. rewrite IH. lia.
Qed.

(** ** Reading the vectors of shared pointers *)


Lemma represents_load_values h n vs :
  represents h n vs -> load_all (genvalue_objs h) (m_genValues n) = Returns vs.
Proof.
  intros (_ & L2 & _ & _ & Hc). unfold load_all.
  assert (mapM (fun p => genvalue_objs h !! p) (m_genValues n) = Some vs) as ->;
    [|done].
  apply mapM_Some, Forall2_same_length_lookup_2; [done|].
  intros i p v Hp Hv.
  destruct (Hc i v Hv) as (_ & pv & _ & _ & H2 & _ & H4 & _). congruence.
Qed.

Lemma represents_load_matrices h n vs :
  represents h n vs ->
  exists mats,
    load_all (matrix_objs h) (m_generatingMatrices n) = Returns mats /\
    length mats = length vs.
Proof.
  intros (L1 & _ & _ & _ & Hc). unfold load_all.
  destruct (mapM (fun p => matrix_objs h !! p) (m_generatingMatrices n))
    as [mats|] eqn:E.
  - exists mats. split; [done|]. apply length_mapM in E. congruence.
  - exfalso. apply eq_None_not_Some in E. apply E. apply mapM_is_Some.
    apply Forall_lookup. intros i p Hp. simpl.
    destruct (lookup_lt_is_Some_2 vs i) as [v Hv].
    { apply lookup_lt_Some in Hp. lia. }
    destruct (Hc i v Hv) as (pm & _ & m & H1 & _ & H3 & _).
    assert (pm = p) as -> by congruence. by exists m.
Qed.




(** ** Point count *)

(** C5: for every net whose column count [k] is below the width of
    [uInteger] -- a dimension-0 net as any other -- [numPoints] returns
    exactly [2^k]; it reads no heap and changes none. *)
Theorem numPoints_exact this :
  (numColumns this < uInteger_bits)%N ->
  numPoints this = Returns (2 ^ numColumns this)%N.
Proof.
  unfold numPoints, numColumns, intPow. intros Hk. f_equal.
  apply N.mod_small. apply N.pow_lt_mono_r; lia.
Qed.

(** C7, as the code has it: [numPoints] has no guard.  For a column count
    at or above the width of [uInteger] it raises nothing and returns
    [2^k] reduced modulo [2^width], that is 0. *)
Theorem numPoints_wraps this :
  (uInteger_bits <= numColumns this)%N ->
  numPoints this = Returns 0%N.
Proof.
  unfold numPoints, numColumns, intPow. intros Hk. f_equal.
  replace (m_nCols this) with (uInteger_bits + (m_nCols this - uInteger_bits))%N
    by lia.
  rewrite N.pow_add_r, N.mul_comm. apply N.Div0.mod_mul.
Qed.

(** ** Matrix lookup *)

(** C6, as the code has it: in a net that satisfies the invariant of the
    data model, [generatingMatrix(coord)] returns the matrix at index
    [coord] when [coord < dimension()]; at and past [dimension()] the
    vector is indexed without a check, nothing is raised, and the call has
    no defined behaviour. *)
Theorem generatingMatrix_unchecked h this coord :
  net_invariant h this ->
  (coord < dimension this ->
     exists p m,
       m_generatingMatrices this !! coord = Some p /\
       matrix_objs h !! p = Some m /\
       generatingMatrix h this coord = Returns m) /\
  (dimension this <= coord -> generatingMatrix h this coord = Undefined).
Proof.
  unfold dimension. intros (vs & Hd & L1 & _ & _ & _ & Hc). split.
  - intros Hlt. rewrite Hd in Hlt.
    destruct (lookup_lt_is_Some_2 vs coord Hlt) as [v Hv].
    destruct (Hc coord v Hv) as (pm & pv & m & H1 & _ & H3 & _).
    exists pm, m. split; [done|]. split; [done|].
    unfold generatingMatrix, generatingMatrix_ref. rewrite H1. simpl.
    by rewrite H3.
  - intros Hge. unfold generatingMatrix, generatingMatrix_ref.
    rewrite (lookup_ge_None_2 (m_generatingMatrices this) coord) by lia. done.
Qed.

(** ** The placeholder constructor *)

(** C10: the placeholder constructor takes any dimension [d]: the net has
    dimension [d], the row and column counts of the size parameter, and no
    matrix and no value; so for [d > 0] the lengths of the two vectors are
    not the dimension, the invariant of the data model fails, and every
    lookup of a matrix indexes past the end of the vector. *)
Theorem placeholder_any_dimension h d (sp : SizeParameter) :
  0 < d ->
  let n := DigitalNet_placeholder d sp in
  dimension n = d /\
  numRows n = nRows sp /\
  numColumns n = nCols sp /\
  m_generatingMatrices n = [] /\
  m_genValues n = [] /\
  length (m_genValues n) <> dimension n /\
  length (m_generatingMatrices n) <> dimension n /\
  ~ net_invariant h n /\
  forall coord,
    m_generatingMatrices n !! coord = None /\
    generatingMatrix h n coord = Undefined.
Proof.
  intros Hd. simpl. unfold dimension. simpl.
  repeat (split; [done || lia|]). split.
  - intros (vs & Hvs & L1 & _). simpl in *. lia.
  - intros coord. split; [apply lookup_nil|].
    unfold generatingMatrix, generatingMatrix_ref. simpl.
    by destruct coord.
Qed.

(** ** Textual output *)

Lemma net_invariant_load h this :
  net_invariant h this ->
  exists mats vals,
    load_all (matrix_objs h) (m_generatingMatrices this) = Returns mats /\
    load_all (genvalue_objs h) (m_genValues this) = Returns vals /\
    length mats = dimension this /\
    length (m_genValues this) = dimension this.
Proof.
  intros (vs & Hd & Hrep).
  destruct (represents_load_matrices _ _ _ Hrep) as (mats & Hl & Hlen).
  exists mats, vs. split; [done|].
  split; [by apply represents_load_values|].
  destruct Hrep as (_ & L2 & _). unfold dimension. by rewrite Hd.
Qed.


(** C9, as the code has it: in the TERMINAL style the text before the
    traits' text is four closed lines when the interlacing factor is 1 and
    six when it exceeds 1: column count, row count, point count, dimension
    divided by the interlacing factor, then the interlacing factor and the
    raw dimension; each an integer, two spaces and a comment.  With 3
    columns, 3 rows, dimension 2 and interlacing factor 1 these are the
    four lines of the example. *)
Theorem format_TERMINAL_lines h this il :
  net_invariant h this ->
  il <> 0%N ->
  exists mats vals,
    load_all (matrix_objs h) (m_generatingMatrices this) = Returns mats /\
    load_all (genvalue_objs h) (m_genValues this) = Returns vals /\
    format_generic h this TERMINAL il = Returns (unlines (terminal_lines this il)) /\
    format h this TERMINAL il =
      Returns (unlines (terminal_lines this il) +:+
               traits_format mats vals (sizeParameter this) TERMINAL il) /\
    length (terminal_lines this il) = (if (1 <? il)%N then 6 else 4) /\
    (numColumns this = 3%N -> numRows this = 3%N -> dimension this = 2 ->
     il = 1%N -> (3 < uInteger_bits)%N ->
     terminal_lines this il =
       [ "3  // Number of columns"; "3  // Number of rows";
         "8  // Number of points"; "2  // Dimension of points" ]).
Proof.
  intros Hinv Hil.
  destruct (net_invariant_load _ _ Hinv) as (mats & vals & Hlm & Hlv & _ & _).
  exists mats, vals. split; [done|]. split; [done|].
  assert (format_generic h this TERMINAL il =
          Returns (unlines (terminal_lines this il))) as Hgen.
  { unfold format_generic, format_TERMINAL, numPoints, terminal_lines. simpl.
    destruct (N.eqb_spec il 0) as [|_]; [done|].
    destruct (1 <? il)%N; simpl; rewrite ?append_assoc; reflexivity. }
  split; [done|]. split.
  { unfold format. rewrite Hgen. simpl. rewrite Hlm. simpl. by rewrite Hlv. }
  split.
  { unfold terminal_lines. by destruct (1 <? il)%N. }
  intros Hk Hr Hd -> Hw. unfold terminal_lines.
  rewrite Hk, Hr, Hd. unfold intPow.
  rewrite N.mod_small by (apply (N.pow_lt_mono_r 2 3); lia).
  reflexivity.
Qed.

End Properties.

(** * The properties on the example construction *)

Section Examples.

Import Toy.

Lemma example_net_built : built example_heap example_net 3%N [5%N; 6%N].
Proof.
  apply (built_values (NetConstructionTraits0 := traits)
           empty_heap 3%N [5%N; 6%N]).
  vm_compute. reflexivity.
Defined.

Lemma extended_net_built :
  built extended_heap extended_net 3%N [5%N; 6%N; 7%N].
Proof.
  apply (built_append (NetConstructionTraits0 := traits)
           example_heap example_net 3%N [5%N; 6%N] 7%N extended_ptr).
  - exact example_net_built.
  - vm_compute. discriminate.
  - vm_compute. reflexivity.
  - vm_compute. reflexivity.
Defined.

Lemma matrices_built_from_values_example :
  built extended_heap extended_net 3%N [5%N; 6%N; 7%N] /\
  dimension extended_net = 3 /\
  sizeParameter extended_net = 3%N /\
  length (m_generatingMatrices extended_net) = 3 /\
  length (m_genValues extended_net) = 3 /\
  forall i v, [5%N; 6%N; 7%N] !! i = Some v ->
    exists pv m,
      m_genValues extended_net !! i = Some pv /\
      genvalue_objs extended_heap !! pv = Some v /\
      generatingMatrix extended_heap extended_net i = Returns m /\
      createGeneratingMatrix v 3%N i = Some m.
Proof.
  split; [exact extended_net_built|].
  exact (matrices_built_from_values extended_heap extended_net 3%N
           [5%N; 6%N; 7%N] extended_net_built).
Defined.



Lemma appendNewCoordinate_frame_example :
  net_objs stored_heap !! stored_ptr = Some example_net /\
  length (m_generatingMatrices example_net) = dimension example_net /\
  child_run = Returns (child_ptr, child_heap) /\
  exists net2,
    net_objs child_heap !! child_ptr = Some net2 /\
    child_ptr <> stored_ptr /\
    net_objs child_heap !! stored_ptr = Some example_net /\
    heap_incl stored_heap child_heap /\
    forall j, j < dimension example_net ->
      exists q, generatingMatrix_ref example_net j = Returns q /\
                generatingMatrix_ref net2 j = Returns q.
Proof.
  assert (net_objs stored_heap !! stored_ptr = Some example_net)
    as H1 by (vm_compute; reflexivity).
  assert (length (m_generatingMatrices example_net) = dimension example_net)
    as H2 by (vm_compute; reflexivity).
  assert (child_run = Returns (child_ptr, child_heap))
    as H3 by (vm_compute; reflexivity).
  split; [exact H1|]. split; [exact H2|]. split; [exact H3|].
  destruct (appendNewCoordinate_frame stored_heap stored_ptr example_net 7%N
              child_ptr child_heap H1 H2 H3)
    as (net2 & A & B & C & D & _ & E & _).
  exists net2. split; [exact A|]. split; [exact B|]. split; [exact C|].
  split; [exact D | exact E].
Defined.

Lemma placeholder_extension_roundtrip_example :
  exists n1 h1' p2 h2' n2,
    DigitalNet_values 2 3%N [5%N; 6%N] empty_heap = Returns (n1, h1') /\
    grow_from_placeholder 3%N [5%N; 6%N] empty_heap = Returns (p2, h2') /\
    net_objs h2' !! p2 = Some n2 /\
    dimension n2 = dimension n1 /\
    dimension n1 = 2 /\
    numRows n2 = numRows n1 /\
    numColumns n2 = numColumns n1 /\
    forall coord,
      generatingMatrix h2' n2 coord = generatingMatrix h1' n1 coord /\
      (coord < 2 -> exists m, generatingMatrix h1' n1 coord = Returns m).
Proof.
  apply (placeholder_extension_roundtrip (NetConstructionTraits0 := traits)
           3%N [5%N; 6%N] empty_heap empty_heap).
  { vm_compute. discriminate. }
  intros j v Hv. destruct j as [|[|j]]; simpl in Hv.
  - injection Hv as <-. vm_compute. eauto.
  - injection Hv as <-. vm_compute. eauto.
  - discriminate.
Defined.

Lemma numPoints_exact_example :
  (numColumns example_net < uInteger_bits)%N /\
  numPoints example_net = Returns (2 ^ numColumns example_net)%N.
Proof.
  assert (numColumns example_net < uInteger_bits)%N as H1
    by (vm_compute; reflexivity).
  split; [exact H1 | exact (numPoints_exact example_net H1)].
Defined.

(** C7 fails on the code: with 64 columns and a 64-bit [uInteger],
    [2^64] is out of range, and [numPoints] returns 0: no exception. *)
Lemma numPoints_not_guarded :
  (2 ^ uInteger_bits <= 2 ^ numColumns wide_net)%N /\
  numPoints wide_net = Returns 0%N /\
  ~ (exists e, numPoints wide_net = Throws e).
Proof.
  split; [vm_compute; discriminate|]. split; [vm_compute; reflexivity|].
  intros [e He]. vm_compute in He. discriminate.
Qed.

Lemma numPoints_wraps_example :
  (uInteger_bits <= numColumns wide_net)%N /\
  numPoints wide_net = Returns 0%N.
Proof.
  assert (uInteger_bits <= numColumns wide_net)%N as H1
    by (vm_compute; discriminate).
  split; [exact H1 | exact (numPoints_wraps wide_net H1)].
Defined.

(** C6 fails on the code: coordinate 2 of the example net of dimension 2
    is out of range, and the lookup raises nothing: it is undefined. *)
Lemma generatingMatrix_not_checked :
  dimension example_net <= 2 /\
  generatingMatrix example_heap example_net 2 = Undefined /\
  ~ (exists e, generatingMatrix example_heap example_net 2 = Throws e).
Proof.
  split; [vm_compute; lia|]. split; [vm_compute; reflexivity|].
  intros [e He]. vm_compute in He. discriminate.
Qed.

Lemma generatingMatrix_unchecked_example :
  net_invariant example_heap example_net /\
  (1 < dimension example_net ->
     exists p m,
       m_generatingMatrices example_net !! 1 = Some p /\
       matrix_objs example_heap !! p = Some m /\
       generatingMatrix example_heap example_net 1 = Returns m) /\
  (dimension example_net <= 1 ->
     generatingMatrix example_heap example_net 1 = Undefined).
Proof.
  pose proof (built_invariant _ _ _ _ example_net_built) as H1.
  split; [exact H1|].
  exact (generatingMatrix_unchecked example_heap example_net 1 H1).
Defined.

Lemma placeholder_any_dimension_example :
  0 < 3 /\
  dimension (DigitalNet_placeholder 3 2%N) = 3 /\
  m_generatingMatrices (DigitalNet_placeholder 3 2%N) = [] /\
  generatingMatrix empty_heap (DigitalNet_placeholder 3 2%N) 0 = Undefined.
Proof.
  assert (0 < 3) as H1 by lia.
  split; [exact H1|].
  destruct (placeholder_any_dimension (NetConstructionTraits0 := traits)
              empty_heap 3 2%N H1)
    as (A & _ & _ & B & _ & _ & _ & _ & C).
  split; [exact A|]. split; [exact B|]. exact (proj2 (C 0)).
Defined.


(** C9 fails on the code: for the example net (3 columns, 3 rows,
    dimension 2) the TERMINAL text has four lines with interlacing factor
    1 and six with interlacing factor 2, not five and seven. *)
Lemma format_TERMINAL_not_five_lines :
  numColumns example_net = 3%N /\ numRows example_net = 3%N /\
  dimension example_net = 2 /\
  (exists text,
     format example_heap example_net TERMINAL 1 = Returns text /\
     format_generic example_heap example_net TERMINAL 1 = Returns text /\
     count_lines text = 4 /\ count_lines text <> 5) /\
  (exists text,
     format example_heap example_net TERMINAL 2 = Returns text /\
     format_generic example_heap example_net TERMINAL 2 = Returns text /\
     count_lines text = 6 /\ count_lines text <> 7).
Proof.
  split; [vm_compute; reflexivity|]. split; [vm_compute; reflexivity|].
  split; [vm_compute; reflexivity|]. split.
  - eexists. split; [vm_compute; reflexivity|].
    split; [vm_compute; reflexivity|]. split; [vm_compute; reflexivity|].
    vm_compute. discriminate.
  - eexists. split; [vm_compute; reflexivity|].
    split; [vm_compute; reflexivity|]. split; [vm_compute; reflexivity|].
    vm_compute. discriminate.
Qed.

Lemma format_TERMINAL_lines_example :
  net_invariant example_heap example_net /\
  1%N <> 0%N /\
  format_generic example_heap example_net TERMINAL 1 =
    Returns (unlines (terminal_lines example_net 1)) /\
  length (terminal_lines example_net 1) = 4.
Proof.
  pose proof (built_invariant _ _ _ _ example_net_built) as H1.
  assert (1%N <> 0%N) as H2 by discriminate.
  split; [exact H1|]. split; [exact H2|].
  destruct (format_TERMINAL_lines example_heap example_net 1%N H1 H2)
    as (mats & vals & _ & _ & A & _ & B & _).
  split; [exact A | exact B].
Defined.

End Examples.

(** * Further properties of the constructors, the extension and the output *)

Section Coverage.

Context {GeneratingMatrix : Type}.
Context `{!GeneratingMatrixOps GeneratingMatrix}.
Context `{!NetConstructionTraits GeneratingMatrix}.
Context `{!UIntegerWidth}.
Context `{!SizeLimits}.

Implicit Types (h : heap) (n this : DigitalNet) (v : GenValue)
  (vs : list GenValue) (p : loc).

(** ** How the constructor and the extension end *)

(** The loop of the constructor either returns, every value being accepted
    at its index, or leaves by the construction error of a rejected
    value. *)
Lemma fill_cases vs : forall j0 this h,
  (exists n h',
     DigitalNet_fill vs j0 this h = Returns (n, h') /\
     forall j v, vs !! j = Some v ->
       is_Some (createGeneratingMatrix v (m_sizeParameter this) (j0 + j))) \/
  (DigitalNet_fill vs j0 this h = Throws construction_error /\
   exists j v, vs !! j = Some v /\
     createGeneratingMatrix v (m_sizeParameter this) (j0 + j) = None).
Proof.
  induction vs as [|v vs IH]; intros j0 this h.
  - left. exists this, h. split; [done|].
    intros j w Hw. by rewrite lookup_nil in Hw.
  - simpl. unfold bind at 1, call_createGeneratingMatrix.
    destruct (createGeneratingMatrix v (m_sizeParameter this) j0) as [m|] eqn:Hm.
    + unfold bind at 1, new_matrix. unfold bind at 1, new_genvalue.
      match goal with
      | |- context [DigitalNet_fill vs (S j0) ?t ?hh] =>
          destruct (IH (S j0) t hh) as [(n & h' & Hr & Hok)|(Hr & j & w & Hw & Hn)]
      end.
      * left. exists n, h'. split; [exact Hr|].
        intros [|j] w Hw; simpl in Hw.
        -- injection Hw as <-. rewrite Nat.add_0_r, Hm. eauto.
        -- specialize (Hok j w Hw). simpl in Hok.
           by replace (j0 + S j) with (S (j0 + j)) by lia.
      * right. split; [exact Hr|]. exists (S j), w. split; [exact Hw|].
        simpl in Hn. by replace (j0 + S j) with (S (j0 + j)) by lia.
    + right. split; [done|]. exists 0, v. by rewrite Nat.add_0_r.
Qed.


(** X2: the constructor from values does not compare its dimension
    argument with the number of values: the net has the dimension it was
    given and one matrix and one value per value passed; a coordinate
    below that number reads the matrix built from its value and index,
    any other is past the end of the vector, also when it is below
    [dimension()]. *)
Theorem DigitalNet_values_any_dimension h (d : Dimension) (sp : SizeParameter)
    vs n h' :
  DigitalNet_values d sp vs h = Returns (n, h') ->
  dimension n = d /\
  sizeParameter n = sp /\
  numRows n = nRows sp /\
  numColumns n = nCols sp /\
  length (m_generatingMatrices n) = length vs /\
  length (m_genValues n) = length vs /\
  (forall coord v, vs !! coord = Some v ->
     exists m, createGeneratingMatrix v sp coord = Some m /\
               generatingMatrix h' n coord = Returns m) /\
  (forall coord, length vs <= coord ->
     generatingMatrix h' n coord = Undefined).
Proof.
  intros Hrun.
  apply values_represents in Hrun as (Hrep & Hd & Hs & _).
  pose proof Hrep as (L1 & L2 & R & C & Hc).
  unfold dimension, sizeParameter, numRows, numColumns.
  split; [done|]. split; [done|].
  split; [by rewrite R, Hs|]. split; [by rewrite C, Hs|].
  split; [done|]. split; [done|]. split.
  - intros coord v Hv.
    destruct (Hc coord v Hv) as (pm & pv & m & H1 & _ & H3 & _ & H5).
    exists m. split; [by rewrite <- Hs|].
    unfold generatingMatrix, generatingMatrix_ref. rewrite H1. simpl.
    by rewrite H3.
  - intros coord Hge.
    rewrite (represents_generatingMatrix _ _ _ coord Hrep).
    by rewrite (lookup_ge_None_2 vs coord) by lia.
Qed.

(** X3: the extension never runs into undefined behaviour on a receiver
    passed by value; it returns exactly when the traits accept the new
    value at the index [dimension()] of the receiver, and otherwise leaves
    by the construction error.  Through a pointer it is undefined exactly
    when no net lives at the pointer. *)
Theorem appendNewCoordinate_outcome this v h p0 :
  appendNewCoordinate this v h <> Undefined /\
  ((exists p h', appendNewCoordinate this v h = Returns (p, h')) <->
   is_Some (createGeneratingMatrix v (sizeParameter this) (dimension this))) /\
  (appendNewCoordinate this v h = Throws construction_error <->
   createGeneratingMatrix v (sizeParameter this) (dimension this) = None) /\
  (invoke p0 (fun this => appendNewCoordinate this v) h = Undefined <->
   net_objs h !! p0 = None).
Proof.
  unfold sizeParameter, dimension.
  assert (forall t,
    match createGeneratingMatrix v (m_sizeParameter t) (m_dimension t) with
    | Some _ => exists p h', appendNewCoordinate t v h = Returns (p, h')
    | None => appendNewCoordinate t v h = Throws construction_error
    end) as Hcase.
  { intros t.
    destruct (createGeneratingMatrix v (m_sizeParameter t) (m_dimension t))
      as [m|] eqn:Hm.
    - by apply (append_returns h t v m).
    - unfold appendNewCoordinate, bind, call_createGeneratingMatrix.
      by rewrite Hm. }
  pose proof (Hcase this) as Hthis.
  destruct (createGeneratingMatrix v (m_sizeParameter this) (m_dimension this))
    as [m|] eqn:Hm.
  - destruct Hthis as (p & h' & Hr). rewrite Hr.
    split; [done|]. split; [split; eauto|]. split; [split; done|].
    unfold invoke. destruct (net_objs h !! p0) as [t|] eqn:Ht; [|done].
    split; [|done]. intros Hu. specialize (Hcase t).
    destruct (createGeneratingMatrix v (m_sizeParameter t) (m_dimension t));
      [destruct Hcase as (? & ? & Hc)|]; congruence.
  - rewrite Hthis. split; [done|].
    split; [split; [intros (? & ? & ?); discriminate | intros [? ?]; discriminate]|].
    split; [done|].
    unfold invoke. destruct (net_objs h !! p0) as [t|] eqn:Ht; [|done].
    split; [|done]. intros Hu. specialize (Hcase t).
    destruct (createGeneratingMatrix v (m_sizeParameter t) (m_dimension t));
      [destruct Hcase as (? & ? & Hc)|]; congruence.
Qed.

(** ** What is allocated *)

(** The number of objects of a kind in the heap. *)
Local Abbreviation card := stdpp.base.size.

Lemma new_matrix_sizes m h p h' :
  new_matrix m h = Returns (p, h') ->
  card (matrix_objs h') = S (card (matrix_objs h)) /\
  genvalue_objs h' = genvalue_objs h /\ net_objs h' = net_objs h.
Proof.
  unfold new_matrix. intros [= <- <-]. simpl. split; [|done].
  apply map_size_insert_None, fresh_lookup_None.
Qed.

Lemma new_genvalue_sizes v h p h' :
  new_genvalue v h = Returns (p, h') ->
  card (genvalue_objs h') = S (card (genvalue_objs h)) /\
  matrix_objs h' = matrix_objs h /\ net_objs h' = net_objs h.
Proof.
  unfold new_genvalue. intros [= <- <-]. simpl. split; [|done].
  apply map_size_insert_None, fresh_lookup_None.
Qed.

Lemma new_net_sizes n h p h' :
  new_net n h = Returns (p, h') ->
  card (net_objs h') = S (card (net_objs h)) /\
  matrix_objs h' = matrix_objs h /\ genvalue_objs h' = genvalue_objs h.
Proof.
  unfold new_net. intros [= <- <-]. simpl. split; [|done].
  apply map_size_insert_None, fresh_lookup_None.
Qed.

Lemma fill_sizes vs : forall j0 this h n h',
  DigitalNet_fill vs j0 this h = Returns (n, h') ->
  card (matrix_objs h') = card (matrix_objs h) + length vs /\
  card (genvalue_objs h') = card (genvalue_objs h) + length vs /\
  net_objs h' = net_objs h.
Proof.
  induction vs as [|v vs IH]; intros j0 this h n h' Hrun.
  - simpl in Hrun. injection Hrun as <- <-. simpl.
    split; [lia|]. split; [lia|done].
  - simpl in Hrun.
    apply bind_Returns in Hrun as (m & h0 & Hm & Hrun).
    apply call_create_Returns in Hm as [_ ->].
    apply bind_Returns in Hrun as (pm & h1 & Hpm & Hrun).
    apply bind_Returns in Hrun as (pv & h2 & Hpv & Hrun).
    apply new_matrix_sizes in Hpm as (M1 & V1 & N1).
    apply new_genvalue_sizes in Hpv as (V2 & M2 & N2).
    apply IH in Hrun as (M3 & V3 & N3).
    rewrite M3, V3, N3, M2, M1, V2, V1, N2, N1. simpl.
    split; [lia|]. split; [lia|done].
Qed.

(** X4: an extension that returns has added to the heap exactly one
    matrix object, one generating-value object and one net object,
    whatever the number of coordinates of the receiver. *)
Theorem appendNewCoordinate_allocates_one h this v p h' :
  appendNewCoordinate this v h = Returns (p, h') ->
  card (matrix_objs h') = S (card (matrix_objs h)) /\
  card (genvalue_objs h') = S (card (genvalue_objs h)) /\
  card (net_objs h') = S (card (net_objs h)).
Proof.
  intros Hrun.
  apply append_inv in Hrun as (m & pm & h1 & pv & h2 & _ & Hpm & Hpv & Hp).
  apply new_matrix_sizes in Hpm as (M1 & V1 & N1).
  apply new_genvalue_sizes in Hpv as (V2 & M2 & N2).
  apply new_net_sizes in Hp as (N3 & M3 & V3).
  rewrite M3, M2, M1, V3, V2, V1, N3, N2, N1. done.
Qed.

(** X5: a construction from values that returns has allocated one matrix
    and one generating value per value passed, and no net. *)
Theorem DigitalNet_values_allocates h (d : Dimension) (sp : SizeParameter)
    vs n h' :
  DigitalNet_values d sp vs h = Returns (n, h') ->
  card (matrix_objs h') = card (matrix_objs h) + length vs /\
  card (genvalue_objs h') = card (genvalue_objs h) + length vs /\
  net_objs h' = net_objs h.
Proof.
  unfold DigitalNet_values. cbv zeta. intros Hrun.
  apply bind_Returns in Hrun as (u & h0 & Hres & Hrun).
  apply reserve_Returns in Hres as [_ ->]. by eapply fill_sizes.
Qed.

(** ** The nets of the public interface *)

Lemma well_stored_incl h h' n :
  heap_incl h h' -> well_stored h n -> well_stored h' n.
Proof.
  intros (Im & Iv & _) (L & R & C & Hm & Hv).
  split; [done|]. split; [done|]. split; [done|]. split.
  - intros i p Hp. destruct (Hm i p Hp) as [m Hl].
    exists m. eapply lookup_weaken; eauto.
  - intros i p Hp. destruct (Hv i p Hp) as [x Hl].
    exists x. eapply lookup_weaken; eauto.
Qed.

Lemma well_stored_push h this m pm h1 v pv h2 d' r' c' :
  well_stored h this ->
  r' = nRows (m_sizeParameter this) ->
  c' = nCols (m_sizeParameter this) ->
  new_matrix m h = Returns (pm, h1) ->
  new_genvalue v h1 = Returns (pv, h2) ->
  well_stored h2
    (mkDigitalNet d' r' c' (m_generatingMatrices this ++ [pm])
       (m_sizeParameter this) (m_genValues this ++ [pv])) /\
  heap_incl h h2.
Proof.
  intros Hws -> -> Hpm Hpv.
  apply new_matrix_incl in Hpm as (_ & Hpm & I1).
  apply new_genvalue_incl in Hpv as (_ & Hpv & I2).
  assert (heap_incl h h2) as I by (eapply heap_incl_trans; eauto).
  split; [|done].
  apply (well_stored_incl _ _ _ I) in Hws as (L & R & C & Hm & Hv).
  split; [simpl; rewrite !length_app; simpl; lia|].
  split; [done|]. split; [done|]. simpl. split.
  - intros i p Hp. apply lookup_app_Some in Hp as [Hp|[_ Hp]]; [by eapply Hm|].
    apply list_lookup_singleton_Some in Hp as [_ <-].
    exists m. destruct I2 as (I2 & _). eapply lookup_weaken; eauto.
  - intros i p Hp. apply lookup_app_Some in Hp as [Hp|[_ Hp]]; [by eapply Hv|].
    apply list_lookup_singleton_Some in Hp as [_ <-]. by exists v.
Qed.

Lemma fill_well_stored vs : forall j0 this h n h',
  well_stored h this ->
  DigitalNet_fill vs j0 this h = Returns (n, h') ->
  well_stored h' n /\ heap_incl h h'.
Proof.
  induction vs as [|v vs IH]; intros j0 this h n h' Hws Hrun.
  - simpl in Hrun. injection Hrun as <- <-. auto using heap_incl_refl.
  - simpl in Hrun.
    apply bind_Returns in Hrun as (m & h0 & Hm & Hrun).
    apply call_create_Returns in Hm as [_ ->].
    apply bind_Returns in Hrun as (pm & h1 & Hpm & Hrun).
    apply bind_Returns in Hrun as (pv & h2 & Hpv & Hrun).
    pose proof Hws as (_ & R & C & _).
    destruct (well_stored_push h this m pm h1 v pv h2 (m_dimension this)
                (m_nRows this) (m_nCols this) Hws R C Hpm Hpv) as [Hws' I].
    apply IH in Hrun as [Hn I']; [|exact Hws'].
    split; [done|]. eapply heap_incl_trans; eauto.
Qed.

Lemma append_well_stored h this v p h' n' :
  well_stored h this ->
  appendNewCoordinate this v h = Returns (p, h') ->
  net_objs h' !! p = Some n' ->
  well_stored h' n'.
Proof.
  intros Hws Hrun Hp'.
  apply append_inv in Hrun as (m & pm & h1 & pv & h2 & _ & Hpm & Hpv & Hp).
  destruct (well_stored_push h this m pm h1 v pv h2
              (Dimension_succ (m_dimension this))
              (nRows (m_sizeParameter this)) (nCols (m_sizeParameter this))
              Hws eq_refl eq_refl Hpm Hpv) as [Hws' _].
  apply new_net_incl in Hp as (_ & Hp & I3).
  assert (n' = DigitalNet_shared (Dimension_succ (m_dimension this))
                 (m_sizeParameter this)
                 (m_genValues this ++ [pv]) (m_generatingMatrices this ++ [pm]))
    as -> by congruence.
  eapply well_stored_incl; [exact I3|]. exact Hws'.
Qed.

Lemma placeholder_well_stored h d (sp : SizeParameter) :
  well_stored h (DigitalNet_placeholder d sp).
Proof.
  split; [done|]. split; [done|]. split; [done|].
  split; intros i p Hp; simpl in Hp; by rewrite lookup_nil in Hp.
Qed.

(** The nets of the public interface are well stored: by induction on how
    the net was obtained. *)
Lemma obtained_is_well_stored h n : obtained h n -> well_stored h n.
Proof.
  induction 1 as [h d sp vs n h' Hrun
                 |h d sp
                 |h this v p h' n' Ho IH Hrun Hp
                 |h h' n Ho IH Hincl].
  - unfold DigitalNet_values in Hrun. cbv zeta in Hrun.
    apply bind_Returns in Hrun as (u & h0 & Hres & Hrun).
    apply reserve_Returns in Hres as [_ ->].
    by apply (fill_well_stored vs 0 _ h n h' (placeholder_well_stored h d sp)).
  - apply placeholder_well_stored.
  - by eapply append_well_stored.
  - by eapply well_stored_incl.
Qed.

(** X6: whatever the arguments of the constructors, every net they give
    and every net the extension gives from such a net keeps its two
    vectors of equal length and has the row and column counts of its size
    parameter; every coordinate below the number of stored matrices reads
    a live matrix and every other one is past the end of the vector, also
    after later allocations. *)
Theorem obtained_lookup h n :
  obtained h n ->
  length (m_genValues n) = length (m_generatingMatrices n) /\
  numRows n = nRows (sizeParameter n) /\
  numColumns n = nCols (sizeParameter n) /\
  forall coord,
    (coord < length (m_generatingMatrices n) ->
       exists m, generatingMatrix h n coord = Returns m) /\
    (length (m_generatingMatrices n) <= coord ->
       generatingMatrix h n coord = Undefined).
Proof.
  intros Ho. apply obtained_is_well_stored in Ho as (L & R & C & Hm & _).
  split; [done|]. split; [done|]. split; [done|].
  intros coord. unfold generatingMatrix, generatingMatrix_ref. split.
  - intros Hlt. destruct (lookup_lt_is_Some_2 _ _ Hlt) as [q Hq].
    rewrite Hq. simpl. destruct (Hm coord q Hq) as [m ->]. by exists m.
  - intros Hge. by rewrite (lookup_ge_None_2 _ coord) by lia.
Qed.

(** ** The output for the nets of the public interface *)



Lemma format_generic_TERMINAL_unlines h this il :
  il <> 0%N ->
  format_generic h this TERMINAL il = Returns (unlines (terminal_lines this il)).
Proof.
  intros Hil.
  unfold format_generic, format_TERMINAL, numPoints, terminal_lines. simpl.
  destruct (N.eqb_spec il 0) as [|_]; [done|].
  destruct (1 <? il)%N; simpl; rewrite ?append_assoc; reflexivity.
Qed.



(** ** Counting the lines of the TERMINAL text *)

Lemma count_lines_string_of_uint (d : Decimal.uint) :
  count_lines (NilEmpty.string_of_uint d) = 0.
Proof. induction d; simpl; auto. Qed.

Lemma count_lines_to_string (x : N) : count_lines (to_string x) = 0.
Proof.
  unfold to_string, NilZero.string_of_uint.
  destruct (N.to_uint x); try apply count_lines_string_of_uint; reflexivity.
Qed.

(** X9: for every net and every interlacing factor but 0 the TERMINAL
    text before the traits' text holds exactly four line ends when the
    factor is 1 and six when it is larger, and it ends with a line end. *)
Theorem format_TERMINAL_count_lines h this il :
  il <> 0%N ->
  exists text,
    format_generic h this TERMINAL il = Returns text /\
    count_lines text = (if (1 <? il)%N then 6 else 4) /\
    exists body, text = body +:+ newline.
Proof.
  intros Hil. exists (unlines (terminal_lines this il)).
  split; [by apply format_generic_TERMINAL_unlines|].
  unfold terminal_lines. destruct (1 <? il)%N; simpl.
  - split.
    + rewrite !count_lines_app, !count_lines_to_string. reflexivity.
    + eexists. rewrite <- !append_assoc. rewrite append_nil_r. reflexivity.
  - split.
    + rewrite !count_lines_app, !count_lines_to_string. reflexivity.
    + eexists. rewrite <- !append_assoc. rewrite append_nil_r. reflexivity.
Qed.

(** ** Chains of extensions *)

Lemma append_all_incl vs : forall p h p' h',
  append_all p vs h = Returns (p', h') -> heap_incl h h'.
Proof.
  induction vs as [|v vs IH]; intros p h p' h' Hrun.
  - simpl in Hrun. injection Hrun as <- <-. apply heap_incl_refl.
  - simpl in Hrun. apply bind_Returns in Hrun as (p1 & h1 & H1 & Hrun).
    unfold invoke in H1. destruct (net_objs h !! p) as [t|]; [|discriminate].
    apply append_incl in H1. apply IH in Hrun.
    eapply heap_incl_trans; eauto.
Qed.

(** A chain of extensions from a net held by pointer, none of which
    takes the dimension past the range of [Dimension]: the net it ends
    with, and what each step added. *)
Lemma append_all_spec vs : forall p n h p' h',
  net_objs h !! p = Some n ->
  (N.of_nat (m_dimension n + length vs) < 2 ^ Dimension_bits)%N ->
  append_all p vs h = Returns (p', h') ->
  exists n',
    net_objs h' !! p' = Some n' /\
    m_dimension n' = m_dimension n + length vs /\
    m_sizeParameter n' = m_sizeParameter n /\
    m_generatingMatrices n `prefix_of` m_generatingMatrices n' /\
    m_genValues n `prefix_of` m_genValues n' /\
    length (m_generatingMatrices n') = length (m_generatingMatrices n) + length vs /\
    forall j v, vs !! j = Some v ->
      exists m,
        createGeneratingMatrix v (m_sizeParameter n) (m_dimension n + j) = Some m /\
        generatingMatrix h' n' (length (m_generatingMatrices n) + j) = Returns m.
Proof.
  induction vs as [|v vs IH]; intros p n h p' h' Hp Hfit Hrun.
  - simpl in Hrun. injection Hrun as <- <-. exists n.
    split; [done|]. split; [simpl; lia|]. split; [done|].
    split; [done|]. split; [done|]. split; [simpl; lia|].
    intros j w Hw. by rewrite lookup_nil in Hw.
  - simpl in Hrun, Hfit. apply bind_Returns in Hrun as (p1 & h1 & H1 & Hrun).
    destruct (invoke_append_frame _ _ _ _ _ _ Hp H1)
      as (pm & pv & m & Hp1 & _ & _ & Hpm & Hm & _).
    rewrite Dimension_succ_small in Hp1 by lia.
    pose proof (append_all_incl _ _ _ _ _ Hrun) as (Im & _ & _).
    assert (N.of_nat (m_dimension n + 1 + length vs) < 2 ^ Dimension_bits)%N
      as Hfit1 by lia.
    destruct (IH _ _ _ _ _ Hp1 Hfit1 Hrun)
      as (n' & Hp' & Hd & Hs & Pm & Pv & Hl & Hc).
    simpl in Hd, Hs, Pm, Pv, Hl, Hc. rewrite length_app in Hl, Hc. simpl in Hl, Hc.
    exists n'. split; [done|]. split; [simpl; lia|]. split; [done|].
    split; [etrans; [|exact Pm]; by apply prefix_app_r|].
    split; [etrans; [|exact Pv]; by apply prefix_app_r|].
    split; [simpl; lia|].
    intros [|j] w Hw; simpl in Hw.
    + injection Hw as <-. exists m. rewrite !Nat.add_0_r. split; [done|].
      unfold generatingMatrix, generatingMatrix_ref.
      rewrite (prefix_lookup_Some _ _ (length (m_generatingMatrices n)) pm
                 (list_lookup_middle _ [] pm _ eq_refl) Pm).
      simpl. by rewrite (lookup_weaken _ _ _ _ Hpm Im).
    + destruct (Hc j w Hw) as (m' & Hm' & Hg). exists m'.
      replace (m_dimension n + S j) with (m_dimension n + 1 + j) by lia.
      replace (length (m_generatingMatrices n) + S j)
        with (length (m_generatingMatrices n) + 1 + j) by lia.
      by split.
Qed.

(** A chain of extensions that stays in the range of [Dimension] either
    returns, every value being accepted at the dimension the net has
    reached, or leaves by the construction error. *)
Lemma append_all_cases vs : forall p n h,
  net_objs h !! p = Some n ->
  (N.of_nat (m_dimension n + length vs) < 2 ^ Dimension_bits)%N ->
  (exists p' h',
     append_all p vs h = Returns (p', h') /\
     forall j v, vs !! j = Some v ->
       is_Some (createGeneratingMatrix v (m_sizeParameter n) (m_dimension n + j))) \/
  (append_all p vs h = Throws construction_error /\
   exists j v, vs !! j = Some v /\
     createGeneratingMatrix v (m_sizeParameter n) (m_dimension n + j) = None).
Proof.
  induction vs as [|v vs IH]; intros p n h Hp Hfit.
  - left. exists p, h. split; [done|].
    intros j w Hw. by rewrite lookup_nil in Hw.
  - simpl in Hfit. simpl. unfold bind. rewrite (invoke_lookup _ _ _ _ Hp).
    destruct (createGeneratingMatrix v (m_sizeParameter n) (m_dimension n))
      as [m|] eqn:Hm.
    + destruct (append_returns h n v m Hm) as (p1 & h1 & Hrun).
      rewrite Hrun.
      assert (invoke p (fun this => appendNewCoordinate this v) h
              = Returns (p1, h1)) as Hinv
        by (by rewrite (invoke_lookup _ _ _ _ Hp)).
      destruct (invoke_append_frame _ _ _ _ _ _ Hp Hinv)
        as (pm & pv & m' & Hp1 & _).
      rewrite Dimension_succ_small in Hp1 by lia.
      assert (N.of_nat (m_dimension n + 1 + length vs) < 2 ^ Dimension_bits)%N
        as Hfit1 by lia.
      destruct (IH _ _ h1 Hp1 Hfit1)
        as [(p' & h' & Hr & Hok)|(Hr & j & w & Hw & Hn)]; simpl in *.
      * left. exists p', h'. split; [exact Hr|].
        intros [|j] w Hw; simpl in Hw.
        -- injection Hw as <-. rewrite Nat.add_0_r, Hm. eauto.
        -- specialize (Hok j w Hw).
           by replace (m_dimension n + S j) with (m_dimension n + 1 + j) by lia.
      * right. split; [exact Hr|]. exists (S j), w. split; [exact Hw|].
        by replace (m_dimension n + S j) with (m_dimension n + 1 + j) by lia.
    + right. split.
      * unfold appendNewCoordinate, bind, call_createGeneratingMatrix.
        by rewrite Hm.
      * exists 0, v. by rewrite Nat.add_0_r.
Qed.

(** X10: after any number of extensions in a row that keep the dimension
    in the range of [Dimension], the last net has the dimension of the
    first plus the number of values, the same size parameter, and at every
    coordinate the first net stores the very address the first net holds;
    the first net and every object of the heap are unchanged.  The matrix
    of the [j]-th value is stored at index (stored matrices of the first
    net) + [j] and is the one the traits build at index (dimension of the
    first net) + [j]. *)
Theorem append_all_chain vs p n h p' h' :
  net_objs h !! p = Some n ->
  (N.of_nat (dimension n + length vs) < 2 ^ Dimension_bits)%N ->
  append_all p vs h = Returns (p', h') ->
  exists n',
    net_objs h' !! p' = Some n' /\
    net_objs h' !! p = Some n /\
    heap_incl h h' /\
    dimension n' = dimension n + length vs /\
    sizeParameter n' = sizeParameter n /\
    (forall j q, generatingMatrix_ref n j = Returns q ->
                 generatingMatrix_ref n' j = Returns q) /\
    (forall j q, m_genValues n !! j = Some q -> m_genValues n' !! j = Some q) /\
    forall j v, vs !! j = Some v ->
      exists m,
        createGeneratingMatrix v (sizeParameter n) (dimension n + j) = Some m /\
        generatingMatrix h' n' (length (m_generatingMatrices n) + j) = Returns m.
Proof.
  intros Hp Hfit Hrun.
  pose proof (append_all_incl _ _ _ _ _ Hrun) as Hincl.
  destruct (append_all_spec _ _ _ _ _ _ Hp Hfit Hrun)
    as (n' & Hp' & Hd & Hs & Pm & Pv & _ & Hc).
  exists n'. split; [done|]. split.
  { destruct Hincl as (_ & _ & In). eapply lookup_weaken; eauto. }
  split; [done|]. split; [done|]. split; [done|]. split.
  { intros j q. unfold generatingMatrix_ref.
    destruct (m_generatingMatrices n !! j) as [q'|] eqn:E; [|discriminate].
    intros [= ->]. by rewrite (prefix_lookup_Some _ _ _ _ E Pm). }
  split; [intros j q Hq; by eapply prefix_lookup_Some|].
  exact Hc.
Qed.

(** A chain of extensions from a live net is never undefined. *)
Lemma append_all_defined vs : forall p n h,
  net_objs h !! p = Some n -> append_all p vs h <> Undefined.
Proof.
  induction vs as [|v vs IH]; intros p n h Hp; [done|].
  simpl. unfold bind.
  destruct (invoke p (fun this => appendNewCoordinate this v) h)
    as [[p1 h1]| |] eqn:Hinv.
  - destruct (invoke_append_frame _ _ _ _ _ _ Hp Hinv) as (pm & pv & m & Hp1 & _).
    by eapply IH.
  - done.
  - rewrite (invoke_lookup _ _ _ _ Hp) in Hinv.
    unfold appendNewCoordinate, bind, call_createGeneratingMatrix in Hinv.
    destruct (createGeneratingMatrix v (m_sizeParameter n) (m_dimension n));
      discriminate.
Qed.

(** X11: the construction from values in one call and the growth from the
    placeholder of dimension 0 fail alike: the first leaves by the
    construction error exactly when the values are as many as a vector
    holds and the second leaves by the construction error, whatever the
    heaps; the growth never runs into undefined behaviour. *)
Theorem construction_fails_alike (sp : SizeParameter) vs h1 h2 :
  (DigitalNet_values (length vs) sp vs h1 = Throws construction_error <->
   fits_vector (length vs) /\
   grow_from_placeholder sp vs h2 = Throws construction_error) /\
  grow_from_placeholder sp vs h2 <> Undefined.
Proof.
  assert (grow_from_placeholder sp vs h2 <> Undefined) as Hdef.
  { unfold grow_from_placeholder, bind.
    destruct (new_net (DigitalNet_placeholder 0 sp) h2) as [[p0 h0]| |] eqn:Hnew;
      try discriminate.
    apply new_net_incl in Hnew as (_ & Hp0 & _). by eapply append_all_defined. }
  split; [|exact Hdef].
  destruct (N.le_gt_cases (N.of_nat (length vs)) vector_max_size) as [Hfit|Hlong].
  - assert (DigitalNet_values (length vs) sp vs h1 =
            DigitalNet_fill vs 0 (DigitalNet_placeholder (length vs) sp) h1) as ->.
    { unfold DigitalNet_values, bind. cbv zeta.
      change (m_dimension (DigitalNet_placeholder (length vs) sp)) with (length vs).
      by rewrite (reserve_fits _ h1 Hfit). }
    unfold grow_from_placeholder, bind.
    destruct (new_net (DigitalNet_placeholder 0 sp) h2) as [[p0 h0]| |] eqn:Hnew;
      try discriminate.
    apply new_net_incl in Hnew as (_ & Hp0 & _).
    pose proof (fits_vector_no_wrap _ Hfit) as Hnw.
    destruct (fill_cases vs 0 (DigitalNet_placeholder (length vs) sp) h1)
      as [(n & h' & Hr & Hok)|(Hr & j & w & Hw & Hn)];
    destruct (append_all_cases vs _ _ _ Hp0 Hnw)
      as [(p' & h'' & Hr' & Hok')|(Hr' & j' & w' & Hw' & Hn')];
    simpl in *; rewrite Hr, Hr'.
    + split; [discriminate | intros [_ ?]; discriminate].
    + destruct (Hok j' w' Hw') as [m Hm]. congruence.
    + destruct (Hok' j w Hw) as [m Hm]. congruence.
    + by split.
  - assert (~ fits_vector (length vs)) as Hnf by (unfold fits_vector; lia).
    unfold DigitalNet_values, bind. cbv zeta.
    change (m_dimension (DigitalNet_placeholder (length vs) sp)) with (length vs).
    rewrite (reserve_too_long _ h1 Hnf).
    split; [discriminate | by intros [? _]].
Qed.

(** X12: a placeholder of dimension [d] that is extended value by value,
    the dimension staying in the range of [Dimension], gives a net of
    dimension [d] + (number of values) with one matrix per value, the
    matrix of the [j]-th value stored at coordinate [j] but built by the
    traits at index [d + j]; for [d > 0] no such number of extensions
    brings back the invariant of the data model. *)
Theorem placeholder_growth_offset h (d : Dimension) (sp : SizeParameter)
    vs p0 h0 p' h' :
  (N.of_nat (d + length vs) < 2 ^ Dimension_bits)%N ->
  new_net (DigitalNet_placeholder d sp) h = Returns (p0, h0) ->
  append_all p0 vs h0 = Returns (p', h') ->
  exists n',
    net_objs h' !! p' = Some n' /\
    dimension n' = d + length vs /\
    length (m_generatingMatrices n') = length vs /\
    (forall j v, vs !! j = Some v ->
       exists m, createGeneratingMatrix v sp (d + j) = Some m /\
                 generatingMatrix h' n' j = Returns m) /\
    (0 < d -> ~ net_invariant h' n').
Proof.
  intros Hfit Hnew Hrun. apply new_net_incl in Hnew as (_ & Hp0 & _).
  destruct (append_all_spec _ _ _ _ _ _ Hp0 Hfit Hrun)
    as (n' & Hp' & Hd & _ & _ & _ & Hl & Hc). simpl in *.
  exists n'. split; [done|]. split; [done|]. split; [done|].
  split; [exact Hc|].
  intros Hpos (ws & Hdw & L1 & _). lia.
Qed.

(** X14: the extension of a net of the public interface has the row
    count, the column count, the point count, the size parameter and the
    sequence flag of its receiver; [size()] and [numPoints()] agree on
    it. *)
Theorem appendNewCoordinate_keeps_counts h this v p h' n' :
  obtained h this ->
  appendNewCoordinate this v h = Returns (p, h') ->
  net_objs h' !! p = Some n' ->
  numRows n' = numRows this /\
  numColumns n' = numColumns this /\
  numPoints n' = numPoints this /\
  size n' = numPoints n' /\
  sizeParameter n' = sizeParameter this /\
  isSequenceViewable n' = isSequenceViewable this.
Proof.
  intros Ho Hrun Hp'.
  apply obtained_is_well_stored in Ho as (_ & R & C & _).
  apply append_inv in Hrun as (m & pm & h1 & pv & h2 & _ & _ & _ & Hp).
  apply new_net_incl in Hp as (_ & Hp & _).
  assert (n' = DigitalNet_shared (Dimension_succ (m_dimension this))
                 (m_sizeParameter this)
                 (m_genValues this ++ [pv]) (m_generatingMatrices this ++ [pm]))
    as -> by congruence.
  unfold numRows, numColumns, numPoints, size, sizeParameter. simpl.
  rewrite R, C. done.
Qed.

End Coverage.

(** * The further properties on the example construction *)

Section CoverageExamples.

Import Toy.

Lemma mismatched_run_eq :
  DigitalNet_values 5 3%N [5%N; 6%N] empty_heap
  = Returns (mismatched_net, mismatched_heap).
Proof. vm_compute. reflexivity. Defined.

Lemma mismatched_obtained : obtained mismatched_heap mismatched_net.
Proof.
  exact (obtained_values (NetConstructionTraits0 := traits)
           empty_heap 5 3%N [5%N; 6%N] _ _ mismatched_run_eq).
Defined.

Lemma extended_run_eq :
  appendNewCoordinate example_net 7%N example_heap
  = Returns (extended_ptr, extended_heap).
Proof. vm_compute. reflexivity. Defined.

Lemma DigitalNet_values_any_dimension_example :
  dimension mismatched_net = 5 /\
  length (m_generatingMatrices mismatched_net) = 2 /\
  generatingMatrix mismatched_heap mismatched_net 2 = Undefined.
Proof.
  destruct (DigitalNet_values_any_dimension _ _ _ _ _ _ mismatched_run_eq)
    as (A & _ & _ & _ & B & _ & _ & C).
  split; [exact A|]. split; [exact B|]. apply C. simpl. lia.
Defined.

Lemma appendNewCoordinate_allocates_one_example :
  stdpp.base.size (matrix_objs extended_heap)
    = S (stdpp.base.size (matrix_objs example_heap)) /\
  stdpp.base.size (genvalue_objs extended_heap)
    = S (stdpp.base.size (genvalue_objs example_heap)) /\
  stdpp.base.size (net_objs extended_heap)
    = S (stdpp.base.size (net_objs example_heap)).
Proof.
  exact (appendNewCoordinate_allocates_one _ _ _ _ _ extended_run_eq).
Defined.

Lemma DigitalNet_values_allocates_example :
  stdpp.base.size (matrix_objs mismatched_heap)
    = stdpp.base.size (matrix_objs empty_heap) + 2 /\
  stdpp.base.size (genvalue_objs mismatched_heap)
    = stdpp.base.size (genvalue_objs empty_heap) + 2 /\
  net_objs mismatched_heap = net_objs empty_heap.
Proof.
  exact (DigitalNet_values_allocates _ _ _ _ _ _ mismatched_run_eq).
Defined.

Lemma obtained_lookup_example :
  obtained mismatched_heap mismatched_net /\
  length (m_genValues mismatched_net)
    = length (m_generatingMatrices mismatched_net) /\
  numRows mismatched_net = nRows (sizeParameter mismatched_net) /\
  numColumns mismatched_net = nCols (sizeParameter mismatched_net) /\
  forall coord,
    (coord < length (m_generatingMatrices mismatched_net) ->
       exists m, generatingMatrix mismatched_heap mismatched_net coord = Returns m) /\
    (length (m_generatingMatrices mismatched_net) <= coord ->
       generatingMatrix mismatched_heap mismatched_net coord = Undefined).
Proof.
  split; [exact mismatched_obtained|].
  exact (obtained_lookup _ _ mismatched_obtained).
Defined.



Lemma format_TERMINAL_count_lines_example :
  2%N <> 0%N /\
  exists text,
    format_generic example_heap example_net TERMINAL 2 = Returns text /\
    count_lines text = 6 /\
    exists body, text = body +:+ newline.
Proof.
  assert (2%N <> 0%N) as H1 by discriminate.
  split; [exact H1|].
  exact (format_TERMINAL_count_lines example_heap example_net 2%N H1).
Defined.

Lemma seeded_lookup :
  net_objs seeded_heap !! seeded_ptr = Some (DigitalNet_placeholder 3 3%N).
Proof. vm_compute. reflexivity. Defined.

Lemma seeded_run_eq :
  new_net (DigitalNet_placeholder 3 3%N) empty_heap
  = Returns (seeded_ptr, seeded_heap).
Proof. vm_compute. reflexivity. Defined.

Lemma grown_run_eq :
  append_all seeded_ptr [5%N; 6%N] seeded_heap = Returns (grown_ptr, grown_heap).
Proof. vm_compute. reflexivity. Defined.

Lemma append_all_chain_example :
  exists n',
    net_objs grown_heap !! grown_ptr = Some n' /\
    net_objs grown_heap !! seeded_ptr = Some (DigitalNet_placeholder 3 3%N) /\
    heap_incl seeded_heap grown_heap /\
    dimension n' = 3 + 2.
Proof.
  assert (N.of_nat (dimension (DigitalNet_placeholder 3 3%N) + length [5%N; 6%N])
          < 2 ^ Dimension_bits)%N as Hfit by (vm_compute; reflexivity).
  destruct (append_all_chain _ _ _ _ _ _ seeded_lookup Hfit grown_run_eq)
    as (n' & A & B & C & D & _).
  exists n'. split; [exact A|]. split; [exact B|]. split; [exact C | exact D].
Defined.

Lemma placeholder_growth_offset_example :
  exists n',
    net_objs grown_heap !! grown_ptr = Some n' /\
    dimension n' = 3 + 2 /\
    length (m_generatingMatrices n') = 2 /\
    generatingMatrix grown_heap n' 0 = Returns (columns 5 3 3) /\
    ~ net_invariant grown_heap n'.
Proof.
  assert (N.of_nat (3 + length [5%N; 6%N]) < 2 ^ Dimension_bits)%N as Hfit
    by (vm_compute; reflexivity).
  destruct (placeholder_growth_offset (NetConstructionTraits0 := traits)
              empty_heap 3 3%N [5%N; 6%N] _ _ _ _ Hfit
              seeded_run_eq grown_run_eq)
    as (n' & A & B & C & D & E).
  exists n'. split; [exact A|]. split; [exact B|]. split; [exact C|].
  split; [|apply E; lia].
  destruct (D 0 5%N eq_refl) as (m & Hm & Hg).
  vm_compute in Hm. injection Hm as <-. exact Hg.
Defined.

Lemma appendNewCoordinate_keeps_counts_example :
  net_objs extended_heap !! extended_ptr = Some extended_net /\
  numRows extended_net = numRows example_net /\
  numColumns extended_net = numColumns example_net /\
  numPoints extended_net = numPoints example_net /\
  size extended_net = numPoints extended_net /\
  sizeParameter extended_net = sizeParameter example_net /\
  isSequenceViewable extended_net = isSequenceViewable example_net.
Proof.
  assert (net_objs extended_heap !! extended_ptr = Some extended_net) as H1
    by (vm_compute; reflexivity).
  split; [exact H1|].
  refine (appendNewCoordinate_keeps_counts example_heap example_net 7%N
            extended_ptr extended_heap extended_net _ extended_run_eq H1).
  exact (obtained_values (NetConstructionTraits0 := traits)
           empty_heap 2 3%N [5%N; 6%N] _ _ eq_refl).
Defined.

End CoverageExamples.

End NetBuilder.
